(** * HIRE-Multi-Cancer: the cohort simulation and its calibration loop

    A shallow embedding of [src/classes.py]: the [Patient] and
    [DiscreteEventSimulation] classes, [objective], [step] and
    [simulated_annealing].

    Modelling conventions.
    - numpy float64 values are exact rationals ([Q]); rounding is not
      modelled.  Counts held in float arrays stay integral, so nothing is
      lost for them.  Where IEEE arithmetic has a special value the
      rationals lack (a quotient by zero), the place is marked.
    - Python exceptions are the [Raise] results of an error-and-state monad
      over a [world]: the simulator object, a store of the pdf arrays
      (so that copies and in-place updates are told apart), numpy's global
      random stream and the printed output.
    - [np.random] is a tape of uniform draws read at a cursor.
    - [np.searchsorted] is numpy's bisection, on sorted and unsorted tables
      alike.  The offsets it returns are [np.int64], and the ages sampled
      from them are 64-bit sums that wrap around; starting ages are taken
      to fit 64 bits.  The difference of a recorded age and [START_AGE] is
      the exact difference, which is the code's [np.int64] difference
      whenever that does not overflow, in particular for the ages in range
      ([age_in_range]).
    - [configs] is not part of the sources: its constants are the fields of
      a [config] record.  [np.exp], [np.log] and scipy's [savgol_filter]
      values are parameters of the section that needs them. *)

From Stdlib Require Import ZArith QArith Lia Lqa String.
From stdpp Require Import base list gmap strings.

Open Scope string_scope.
Open Scope list_scope.

(** ** Exceptions and results *)

Inductive exn := IndexError | KeyError | ValueError.

Definition exn_eqb (a b : exn) : bool :=
  match a, b with
  | IndexError, IndexError | KeyError, KeyError | ValueError, ValueError => true
  | _, _ => false
  end.

Inductive result (A : Type) :=
| Ok (a : A)
| Raise (e : exn).
Arguments Ok {A} a.
Arguments Raise {A} e.

(** ** numpy on one-dimensional arrays *)

Module Np.

Definition Qltb (x y : Q) : bool := negb (Qle_bool y x).

(** An index into an array of length [n]: negative indices count from the
    end, anything outside [-n, n) is an IndexError. *)
Definition index (n : nat) (i : Z) : option nat :=
  if ((0 <=? i) && (i <? Z.of_nat n))%Z then Some (Z.to_nat i)
  else if ((- Z.of_nat n <=? i) && (i <? 0))%Z then Some (Z.to_nat (i + Z.of_nat n))
  else None.

(** [arr[i] += 1] *)
Definition incr (arr : list Q) (i : Z) : result (list Q) :=
  match index (length arr) i with
  | Some k => Ok (alter (fun x => (x + 1)%Q) k arr)
  | None => Raise IndexError
  end.

(** [np.zeros(n)] *)
Definition zeros (n : Z) : result (list Q) :=
  if (n <? 0)%Z then Raise ValueError else Ok (replicate (Z.to_nat n) 0%Q).

Fixpoint cumsum_from (acc : Q) (l : list Q) : list Q :=
  match l with
  | [] => []
  | x :: r => (acc + x)%Q :: cumsum_from (acc + x)%Q r
  end.

(** [np.cumsum(l)]: entry [a] is the sum of [l[0..a]], [a] included. *)
Definition cumsum (l : list Q) : list Q :=
  match l with
  | [] => []
  | x :: r => x :: cumsum_from x r
  end.

Definition sum (l : list Q) : Q := foldr Qplus 0%Q l.

(** [np.searchsorted(a, v)] (side left) is numpy's bisection, whatever the
    order of [a]:
    [while min_idx < max_idx: mid = min_idx + ((max_idx - min_idx) >> 1);
     if a[mid] < v: min_idx = mid + 1 else: max_idx = mid], and [min_idx] is
    returned.  The interval shrinks at every round, so [len(a)] rounds are
    enough ([bisect_fuel] below). *)
Fixpoint bisect (fuel : nat) (a : list Q) (v : Q) (min_idx max_idx : nat) : nat :=
  match fuel with
  | O => min_idx
  | S fuel' =>
      if (min_idx <? max_idx)%nat then
        let mid := min_idx + (max_idx - min_idx) / 2 in
        if Qltb (nth mid a 0%Q) v then bisect fuel' a v (S mid) max_idx
        else bisect fuel' a v min_idx mid
      else min_idx
  end.

Definition searchsorted (a : list Q) (v : Q) : nat :=
  bisect (length a) a v 0 (length a).

(** [np.int64] arithmetic: the offset [searchsorted] returns is an [np.int64],
    and a sum with it is reduced to the 64-bit two's-complement range. *)
Definition int64_min : Z := (-9223372036854775808)%Z.
Definition int64_max : Z := 9223372036854775807%Z.

Definition int64 (z : Z) : Z :=
  ((z + 9223372036854775808) mod 18446744073709551616 - 9223372036854775808)%Z.

Definition int64_add (x y : Z) : Z := int64 (x + y).

(** [l[lo:hi]] with Python's treatment of negative and oversized bounds. *)
Definition clamp_bound (len : nat) (i : Z) : nat :=
  if (i <? 0)%Z then Z.to_nat (Z.max (i + Z.of_nat len) 0)
  else Z.to_nat (Z.min i (Z.of_nat len)).

Definition slice {A} (l : list A) (lo hi : Z) : list A :=
  let start := clamp_bound (length l) lo in
  let stop := clamp_bound (length l) hi in
  take (stop - start) (drop start l).

(** [np.clip(x, 0.0, 1.0)] on one value. *)
Definition clip01 (x : Q) : Q :=
  if Qltb x 0 then 0%Q else if Qltb 1 x then 1%Q else x.

(** [a[mask] += vals]: the k-th selected entry receives [vals[k]]. *)
Fixpoint add_masked (a : list Q) (mask : list bool) (vals : list Q) : list Q :=
  match a, mask with
  | x :: a', true :: m' =>
      match vals with
      | v :: vs => (x + v)%Q :: add_masked a' m' vs
      | [] => x :: add_masked a' m' []
      end
  | x :: a', false :: m' => x :: add_masked a' m' vals
  | _, _ => a
  end.

(** [mask.sum()] *)
Fixpoint count_true (mask : list bool) : nat :=
  match mask with
  | [] => 0
  | b :: m => (if b then 1 else 0) + count_true m
  end.

(** [np.random.uniform(low, high)] from one draw [u] of [random()]. *)
Definition uniform (low high u : Q) : Q := (low + (high - low) * u)%Q.

End Np.

(** sklearn's [mean_squared_error(y_true, y_pred)]: the inputs are validated
    (same number of samples, at least one) and the squared differences are
    averaged. *)
Definition sq_err (p : Q * Q) : Q := ((p.1 - p.2) * (p.1 - p.2))%Q.

Definition mean_squared_error (y_true y_pred : list Q) : result Q :=
  if negb (length y_true =? length y_pred)%nat then Raise ValueError
  else if (length y_true =? 0)%nat then Raise ValueError
  else Ok (Np.sum (sq_err <$> zip y_true y_pred) / inject_Z (Z.of_nat (length y_true)))%Q.

(** ** Configuration, objects and the world *)

Record config := mkConfig {
  START_AGE : Z;
  END_AGE : Z;
  COHORT_YEAR : Z;
  condCDF : list Q
}.

Record Patient := mkPatient {
  pid : nat;
  age : Z;
  history : gmap string Z
}.

Record DES := mkDES {
  num_patients : Z;
  patients : list Patient;
  log : list (gmap string Z);
  cancerIncArr : list Q;
  acMortArr : list Q
}.

Record rng := mkRng { tape : nat -> Q; cursor : nat }.

Inductive out_event :=
| PrintProgress (i : nat) (score : Q)
| PrintScore (score : Q).

Definition loc := nat.

Record world := mkWorld {
  w_des : DES;
  w_heap : list (list Q);
  w_rng : rng;
  w_out : list out_event
}.

Definition set_patients (ps : list Patient) (d : DES) : DES :=
  mkDES (num_patients d) ps (log d) (cancerIncArr d) (acMortArr d).
Definition set_log (l : list (gmap string Z)) (d : DES) : DES :=
  mkDES (num_patients d) (patients d) l (cancerIncArr d) (acMortArr d).
Definition set_cancerIncArr (a : list Q) (d : DES) : DES :=
  mkDES (num_patients d) (patients d) (log d) a (acMortArr d).
Definition set_acMortArr (a : list Q) (d : DES) : DES :=
  mkDES (num_patients d) (patients d) (log d) (cancerIncArr d) a.

Definition set_des (d : DES) (w : world) : world :=
  mkWorld d (w_heap w) (w_rng w) (w_out w).
Definition set_heap (h : list (list Q)) (w : world) : world :=
  mkWorld (w_des w) h (w_rng w) (w_out w).
Definition set_rng (g : rng) (w : world) : world :=
  mkWorld (w_des w) (w_heap w) g (w_out w).
Definition set_out (o : list out_event) (w : world) : world :=
  mkWorld (w_des w) (w_heap w) (w_rng w) o.

(** ** The monad of the program: state and exceptions *)

Definition M (A : Type) : Type := world -> result A * world.

Definition ret {A} (a : A) : M A := fun w => (Ok a, w).

Definition bind {A B} (m : M A) (k : A -> M B) : M B :=
  fun w =>
    match m w with
    | (Ok a, w') => k a w'
    | (Raise e, w') => (Raise e, w')
    end.

Definition lift {A} (r : result A) : M A := fun w => (r, w).

Definition gets {A} (f : world -> A) : M A := fun w => (Ok (f w), w).

Definition modify (f : world -> world) : M unit := fun w => (Ok tt, f w).

Definition modify_des (f : DES -> DES) : M unit :=
  modify (fun w => set_des (f (w_des w)) w).

(** [try: m except e: pass] *)
Definition try_pass (m : M unit) (e : exn) : M unit :=
  fun w =>
    match m w with
    | (Raise e', w') => if exn_eqb e e' then (Ok tt, w') else (Raise e', w')
    | r => r
    end.

Declare Scope prog_scope.
Delimit Scope prog_scope with prog.
Notation "x <- m ;; k" := (bind m (fun x => k))
  (at level 100, m at next level, right associativity) : prog_scope.
Notation "m ;;; k" := (bind m (fun _ => k))
  (at level 100, right associativity) : prog_scope.
Open Scope prog_scope.

Fixpoint for_each {A} (l : list A) (body : A -> M unit) : M unit :=
  match l with
  | [] => ret tt
  | x :: r => body x ;;; for_each r body
  end.

(** [np.random.rand()]: the next draw of the tape. *)
Definition rand_rng (g : rng) : Q * rng := (tape g (cursor g), mkRng (tape g) (S (cursor g))).

Definition rand : M Q :=
  fun w => let (u, g) := rand_rng (w_rng w) in (Ok u, set_rng g w).

(** [np.random.random(n)]: [n] consecutive draws. *)
Fixpoint rand_n (n : nat) : M (list Q) :=
  match n with
  | O => ret []
  | S n' => u <- rand ;; us <- rand_n n' ;; ret (u :: us)
  end.

(** The store of pdf arrays.  A reference that is live in Python always
    points to an array; an unknown location reads as the empty array. *)
Definition deref (l : loc) : M (list Q) := gets (fun w => default [] (w_heap w !! l)).

Definition alloc (a : list Q) : M loc :=
  fun w => (Ok (length (w_heap w)), set_heap (w_heap w ++ [a]) w).

Definition store (l : loc) (a : list Q) : M unit :=
  modify (fun w => set_heap (<[l := a]> (w_heap w)) w).

(** [np.copy(x)] *)
Definition np_copy (l : loc) : M loc := a <- deref l ;; alloc a.

Definition print (e : out_event) : M unit :=
  modify (fun w => set_out (w_out w ++ [e]) w).

(** [d[k]] on a dict *)
Definition dict_get (d : gmap string Z) (k : string) : M Z :=
  match d !! k with
  | Some v => ret v
  | None => lift (Raise KeyError)
  end.

(** ** class Patient *)

Definition Patient_init (pid : nat) (starting_age : Z) : Patient :=
  mkPatient pid starting_age {["Healthy" := starting_age]}.

Definition Patient_reset (p : Patient) : Patient :=
  mkPatient (pid p) (age p) {["Healthy" := age p]}.

(** The two sampled ages of [Patient.run], from the two draws it makes:
    each is the [np.int64] sum of an offset and the starting age, which
    wraps around beyond the 64-bit range. *)
Definition death_age (cfg : config) (p : Patient) (u : Q) : Z :=
  Np.int64_add (Z.of_nat (Np.searchsorted (condCDF cfg) u)) (age p).

Definition onset_age (p : Patient) (cancer_pdf : list Q) (u : Q) : Z :=
  Np.int64_add (Z.of_nat (Np.searchsorted (Np.cumsum cancer_pdf) u)) (age p).

Definition Patient_run (cfg : config) (p : Patient) (cancer_pdf : list Q) (g : rng)
  : Patient * rng :=
  let p := Patient_reset p in
  let (u1, g) := rand_rng g in
  let ac_age := death_age cfg p u1 in
  let (u2, g) := rand_rng g in
  let cancer_age := onset_age p cancer_pdf u2 in
  let h := if (cancer_age <=? ac_age)%Z
           then <["Cancer" := cancer_age]> (history p) else history p in
  (mkPatient (pid p) (age p) (<["Other Death" := ac_age]> h), g).

(** ** class DiscreteEventSimulation *)

Definition n_ages (cfg : config) : Z := (END_AGE cfg - START_AGE cfg + 1)%Z.

Definition DES_reset (cfg : config) : M unit :=
  modify_des (set_log []) ;;;
  z <- lift (Np.zeros (n_ages cfg)) ;;
  modify_des (set_cancerIncArr z) ;;;
  z <- lift (Np.zeros (n_ages cfg)) ;;
  modify_des (set_acMortArr z).

Definition DES_init (cfg : config) (num_patients : Z) (starting_age : Z) : result DES :=
  let ps := (fun k => Patient_init k starting_age) <$> seq 0 (Z.to_nat num_patients) in
  match Np.zeros (n_ages cfg) with
  | Ok z => Ok (mkDES num_patients ps [] z z)
  | Raise e => Raise e
  end.

(** [patient.run(cancer_pdf)] on the k-th patient of the cohort; the
    returned history is the dict the patient now holds. *)
Definition run_patient (cfg : config) (cancer_pdf : list Q) (k : nat) : M (gmap string Z) :=
  fun w =>
    match patients (w_des w) !! k with
    | None => (Raise IndexError, w)
    | Some p =>
        let (p', g) := Patient_run cfg p cancer_pdf (w_rng w) in
        (Ok (history p'),
         set_rng g (set_des (set_patients (<[k := p']> (patients (w_des w))) (w_des w)) w))
    end.

Definition mort_incr (i : Z) : M unit :=
  arr <- gets (fun w => acMortArr (w_des w)) ;;
  arr' <- lift (Np.incr arr i) ;;
  modify_des (set_acMortArr arr').

Definition inc_incr (i : Z) : M unit :=
  arr <- gets (fun w => cancerIncArr (w_des w)) ;;
  arr' <- lift (Np.incr arr i) ;;
  modify_des (set_cancerIncArr arr').

(** Lines 78-83: what the loop does with one returned history. *)
Definition record_history (cfg : config) (patient_history : gmap string Z) : M unit :=
  modify_des (fun d => set_log (log d ++ [patient_history]) d) ;;;
  (d <- dict_get patient_history "Other Death" ;; mort_incr (d - START_AGE cfg)) ;;;
  try_pass (c <- dict_get patient_history "Cancer" ;; inc_incr (c - START_AGE cfg)) KeyError.

Definition run_body (cfg : config) (cancer_pdf : list Q) (k : nat) : M unit :=
  patient_history <- run_patient cfg cancer_pdf k ;;
  record_history cfg patient_history.

(** Lines 75-83: the reset and the loop over the cohort; the arrays then
    hold the raw counts. *)
Definition DES_count (cfg : config) (cancer_pdf : list Q) : M unit :=
  DES_reset cfg ;;;
  ps <- gets (fun w => patients (w_des w)) ;;
  for_each (seq 0 (length ps)) (run_body cfg cancer_pdf).

(** [100000*np.divide(count, alive+1)] on one bin.  The divisor is at least
    1 whenever the cohort has [num_patients] patients. *)
Definition rate (count alive : Q) : Q := (100000 * (count / (alive + 1)))%Q.

(** Lines 84-85 *)
Definition DES_normalise : M unit :=
  modify_des (fun d =>
    let num_alive := (fun s => (inject_Z (num_patients d) - s)%Q) <$> Np.cumsum (acMortArr d) in
    set_cancerIncArr (zip_with rate (cancerIncArr d) num_alive) d).

Definition DES_run (cfg : config) (cancer_pdf : list Q) : M unit :=
  DES_count cfg cancer_pdf ;;; DES_normalise.

(** ** objective *)

Definition objective (cfg : config) (obs exp : list Q) : result Q :=
  mean_squared_error exp (Np.slice obs (1975 - COHORT_YEAR cfg) (2021 - COHORT_YEAR cfg)).

(** ** step and simulated_annealing *)

Section Calibration.

(** [np.exp] and [np.log] on float64, and the value scipy's
    [savgol_filter(x, 10, 3, mode='interp')] puts at each position of its
    output. *)
Variable np_exp np_log : Q -> Q.
Variable savgol : list Q -> nat -> Q.
Variable cfg : config.

(** The output has the shape of the input; in mode interp a window longer
    than the data is a ValueError.  (The even window 10 is taken as scipy
    takes it in the releases that accept even windows.) *)
Definition savgol_filter (x : list Q) : result (list Q) :=
  if (length x <? 10)%nat then Raise ValueError
  else Ok (savgol x <$> seq 0 (length x)).

Definition select_mask (mask_size : Q) (draws : list Q) : list bool :=
  (fun r => Np.Qltb mask_size r) <$> draws.

(** Lines 121-122: the mask and the in-place perturbation. *)
Definition step_perturb (candidate : loc) (step_size mask_size : Q) : M unit :=
  a <- deref candidate ;;
  draws <- rand_n (length a) ;;
  let mask := select_mask mask_size draws in
  us <- rand_n (Np.count_true mask) ;;
  store candidate (Np.add_masked a mask (Np.uniform (- step_size) step_size <$> us)).

(** Lines 123-124: smoothing and clipping, each into a new array. *)
Definition step_smooth_clip (candidate : loc) : M loc :=
  a <- deref candidate ;;
  smoothed <- lift (savgol_filter a) ;;
  candidate <- alloc smoothed ;;
  a <- deref candidate ;;
  alloc (Np.clip01 <$> a).

Definition step (candidate : loc) (step_size mask_size : Q) : M loc :=
  step_perturb candidate step_size mask_size ;;;
  step_smooth_clip candidate.

(** [objective(des.run(pdf).cancerIncArr, cancer_inc)] *)
Definition evaluate (pdf : loc) (cancer_inc : list Q) : M Q :=
  a <- deref pdf ;;
  DES_run cfg a ;;;
  obs <- gets (fun w => cancerIncArr (w_des w)) ;;
  lift (objective cfg obs cancer_inc).

Record sa_state := mkSA {
  best : loc;
  best_eval : Q;
  curr : loc;
  curr_eval : Q
}.

(** Line 147; [i + 1 >= 1], so the logarithm is not negative and the
    divisor is at least 1. *)
Definition temperature (start_temp : Q) (i : nat) : Q :=
  (start_temp / (1 + np_log (inject_Z (Z.of_nat i + 1))))%Q.

(** [np.random.random() < np.exp(-diff / t)], reached with [diff >= 0].
    At [t = 0] the float quotient is nan or minus infinity, its
    exponential nan or 0, and the comparison is false. *)
Definition below_metropolis (u diff t : Q) : bool :=
  if Qeq_bool t 0 then false
  else Np.Qltb u (np_exp (- diff / t)).

(** Line 154; [or] draws the random number only when [diff < 0] fails. *)
Definition accept (diff t : Q) : M bool :=
  if Np.Qltb diff 0 then ret true
  else u <- rand ;; ret (below_metropolis u diff t).

(** Lines 145-146 *)
Definition propose (cancer_inc : list Q) (step_size mask_size : Q) (st : sa_state)
  : M (loc * Q) :=
  c <- np_copy (curr st) ;;
  candidate <- step c step_size mask_size ;;
  candidate_eval <- evaluate candidate cancer_inc ;;
  ret (candidate, candidate_eval).

(** Lines 147-155 *)
Definition settle (start_temp : Q) (verbose : bool) (i : nat) (st : sa_state)
    (candidate : loc) (candidate_eval : Q) : M sa_state :=
  let t := temperature start_temp i in
  let st := if Np.Qltb candidate_eval (best_eval st)
            then mkSA candidate candidate_eval (curr st) (curr_eval st) else st in
  (if verbose && (i mod 100 =? 0)%nat
   then print (PrintProgress i (best_eval st)) else ret tt) ;;;
  let diff := (candidate_eval - curr_eval st)%Q in
  ok <- accept diff t ;;
  ret (if ok : bool then mkSA (best st) (best_eval st) candidate candidate_eval else st).

Definition sa_iteration (cancer_inc : list Q) (start_temp step_size mask_size : Q)
    (verbose : bool) (st : sa_state) (i : nat) : M sa_state :=
  p <- propose cancer_inc step_size mask_size st ;;
  settle start_temp verbose i st p.1 p.2.

Fixpoint sa_loop (cancer_inc : list Q) (start_temp step_size mask_size : Q)
    (verbose : bool) (range : list nat) (st : sa_state) : M sa_state :=
  match range with
  | [] => ret st
  | i :: r =>
      st' <- sa_iteration cancer_inc start_temp step_size mask_size verbose st i ;;
      sa_loop cancer_inc start_temp step_size mask_size verbose r st'
  end.

Definition simulated_annealing (cancer_pdf : loc) (cancer_inc : list Q)
    (n_iterations : Z) (start_temp step_size mask_size : Q) (verbose : bool) : M loc :=
  best0 <- np_copy cancer_pdf ;;
  best_eval0 <- evaluate best0 cancer_inc ;;
  st <- sa_loop cancer_inc start_temp step_size mask_size verbose
          (seq 0 (Z.to_nat n_iterations)) (mkSA best0 best_eval0 best0 best_eval0) ;;
  print (PrintScore (best_eval st)) ;;;
  ret (best st).

End Calibration.

(** * Notions used in the statements *)

(** The world once a history has been appended to the log. *)
Definition with_logged (h : gmap string Z) (w : world) : world :=
  set_des (set_log (log (w_des w) ++ [h]) (w_des w)) w.

(** The world after [reset]: empty log, zeroed arrays. *)
Definition zeroed (cfg : config) (w : world) : world :=
  let z := replicate (Z.to_nat (n_ages cfg)) 0%Q in
  set_des (mkDES (num_patients (w_des w)) (patients (w_des w)) [] z z) w.

(** What [n] completed iterations of the loop have done to the world. *)
Definition progress (n : nat) (w w' : world) : Prop :=
  w_heap w' = w_heap w /\
  w_out w' = w_out w /\
  tape (w_rng w') = tape (w_rng w) /\
  cursor (w_rng w') = cursor (w_rng w) + 2 * n /\
  num_patients (w_des w') = num_patients (w_des w) /\
  age <$> patients (w_des w') = age <$> patients (w_des w) /\
  length (acMortArr (w_des w')) = length (acMortArr (w_des w)) /\
  length (cancerIncArr (w_des w')) = length (cancerIncArr (w_des w)) /\
  (Np.sum (acMortArr (w_des w')) ==
     Np.sum (acMortArr (w_des w)) + inject_Z (Z.of_nat n))%Q /\
  (Np.sum (cancerIncArr (w_des w)) <= Np.sum (cancerIncArr (w_des w')))%Q /\
  (Np.sum (cancerIncArr (w_des w')) <=
     Np.sum (cancerIncArr (w_des w)) + inject_Z (Z.of_nat n))%Q /\
  (Forall (fun x => (0 <= x)%Q) (acMortArr (w_des w)) ->
   Forall (fun x => (0 <= x)%Q) (acMortArr (w_des w'))).

(** The number still alive that the code puts under bin [a]: the population
    minus the deaths of the bins up to and including [a]. *)
Definition alive_through (population : Q) (mortality : list Q) (a : nat) : Q :=
  (population - Np.sum (take (S a) mortality))%Q.

(** The reading in which the deaths of bin [a] itself are left out. *)
Definition alive_before (population : Q) (mortality : list Q) (a : nat) : Q :=
  (population - Np.sum (take a mortality))%Q.

Definition population (w : world) : Q := inject_Z (num_patients (w_des w)).

(** The offset at which a patient of starting age [a] dies, for the draw
    [u]: what line 79 uses as index. *)
Definition death_offset (cfg : config) (a : Z) (u : Q) : Z :=
  (Z.of_nat (Np.searchsorted (condCDF cfg) u) + a - START_AGE cfg)%Z.

(** The draw that decides the death of the k-th patient of a run started in
    [w]: every patient before it has made two draws. *)
Definition death_draw (w : world) (k : nat) : Q :=
  tape (w_rng w) (cursor (w_rng w) + 2 * k).

(** The mean of the squared differences, position by position. *)
Definition mean_sq_diff (a b : list Q) : Q :=
  (Np.sum ((fun i => (nth i a 0 - nth i b 0) * (nth i a 0 - nth i b 0))%Q
             <$> seq 0 (length a))
   / inject_Z (Z.of_nat (length a)))%Q.

(** The window of the observed curve that [objective] compares. *)
Definition window (cfg : config) (obs : list Q) : list Q :=
  Np.slice obs (1975 - COHORT_YEAR cfg) (2021 - COHORT_YEAR cfg).

(** The draw that decides about position [i], whether it selects the
    position, the number of selected positions before [i], and the draw
    from which position [i] then gets its perturbation: the draws for the
    mask are the next [n] of the stream, those for the perturbations follow
    them. *)
Definition mask_draw (w : world) (i : nat) : Q :=
  tape (w_rng w) (cursor (w_rng w) + i).

Definition selected (mask_size : Q) (w : world) (i : nat) : bool :=
  Np.Qltb mask_size (mask_draw w i).

Definition rank (mask_size : Q) (w : world) (i : nat) : nat :=
  Np.count_true (selected mask_size w <$> seq 0 i).

Definition perturbation_draw (mask_size : Q) (w : world) (n i : nat) : Q :=
  tape (w_rng w) (cursor (w_rng w) + n + rank mask_size w i).

(** A table in non-decreasing order, as [np.searchsorted] expects it. *)
Definition non_decreasing (a : list Q) : Prop :=
  forall (i j : nat) (x y : Q), i <= j -> a !! i = Some x -> a !! j = Some y -> (x <= y)%Q.

(** A starting age from which neither sampled age leaves the [np.int64]
    range: it is not below the first age of the simulation, which is not
    negative, and the largest offsets the two tables can give still fit. *)
Definition age_in_range (cfg : config) (cancer_pdf : list Q) (a : Z) : Prop :=
  (0 <= START_AGE cfg)%Z /\ (START_AGE cfg <= a)%Z /\
  (a + Z.of_nat (length (condCDF cfg)) <= Np.int64_max)%Z /\
  (a + Z.of_nat (length cancer_pdf) <= Np.int64_max)%Z.

(** ** A small cohort, run by hand

    Ages 0 and 1, three patients starting at age 0.  The draws send patient
    0 to death and cancer in bin 0, patient 1 to death and cancer in bin 1,
    patient 2 to death in bin 0 with an onset that would come later. *)

Module Demo.

Definition cfg : config := mkConfig 0 1 1975 [(1#4)%Q; 1%Q].

Definition cancer_pdf : list Q := [(1#2)%Q; (1#2)%Q].

Definition draws (n : nat) : Q :=
  nth n [(1#8)%Q; (1#4)%Q; (1#2)%Q; (3#4)%Q; (1#8)%Q; (3#4)%Q] (1#2)%Q.

Definition des : DES :=
  mkDES 3 [Patient_init 0 0; Patient_init 1 0; Patient_init 2 0] []
        [0%Q; 0%Q] [0%Q; 0%Q].

Definition w : world := mkWorld des [cancer_pdf] (mkRng draws 0) [].

Definition counted : world := (DES_count cfg cancer_pdf w).2.
Definition ran : world := (DES_run cfg cancer_pdf w).2.

(** A ten-entry pdf, and a three-point average standing in for the
    smoothing filter when [step] is run by hand. *)
Definition pdf10 : list Q := replicate 10 (1#10)%Q.

Definition smooth3 (x : list Q) (i : nat) : Q :=
  ((nth (pred i) x 0 + nth i x 0 + nth (S i) x 0) / 3)%Q.

Definition w10 : world := mkWorld des [pdf10] (mkRng draws 0) [].

(** Rational stand-ins for [np.exp] and [np.log], exact at 0 and at 1. *)
Definition exp_approx (x : Q) : Q := (1 + x + x * x / 2)%Q.
Definition log_approx (x : Q) : Q := (2 * (x - 1) / (x + 1))%Q.

Definition cancer_inc : list Q := [50000%Q; 100000%Q].




End Demo.

(** ** Notions for the further properties *)

(** The history [Patient.run] computes for the k-th patient [p] of a run
    started in [w]: it reads draws [2k] and [2k + 1] after the cursor. *)
Definition expected_history (cfg : config) (cancer_pdf : list Q) (w : world)
    (k : nat) (p : Patient) : gmap string Z :=
  history (Patient_run cfg p cancer_pdf
             (mkRng (tape (w_rng w)) (cursor (w_rng w) + 2 * k))).1.

Definition expected_log (cfg : config) (cancer_pdf : list Q) (w : world)
  : list (gmap string Z) :=
  imap (expected_history cfg cancer_pdf w) (patients (w_des w)).

(** Whether the age a history holds under [key] falls, as an index into an
    array of length [n], on bin [a]; and how many histories of a log do. *)
Definition in_bin (cfg : config) (n : nat) (key : string) (a : nat)
    (h : gmap string Z) : bool :=
  match h !! key with
  | Some v =>
      match Np.index n (v - START_AGE cfg) with
      | Some k => (k =? a)%nat
      | None => false
      end
  | None => false
  end.

Definition count_in_bin (cfg : config) (n : nat) (key : string) (a : nat)
    (l : list (gmap string Z)) : nat :=
  length (List.filter (in_bin cfg n key a) l).

(** An array of counts agrees with a count per bin. *)
Definition agrees (arr : list Q) (count : nat -> nat) : Prop :=
  forall a, a < length arr ->
            exists q, arr !! a = Some q /\ (q == inject_Z (Z.of_nat (count a)))%Q.

(** What [simulated_annealing] may print before the final score: progress
    lines of iterations [i < n_iterations] with [i] a multiple of 100. *)
Definition is_progress (n_iterations : Z) (e : out_event) : Prop :=
  match e with
  | PrintProgress i _ => i mod 100 = 0 /\ (Z.of_nat i < n_iterations)%Z
  | PrintScore _ => False
  end.

(** An array of [n] entries, all in [0, 1], stored at [l]. *)
Definition holds_pdf (n : nat) (w : world) (l : loc) : Prop :=
  exists b, w_heap w !! l = Some b /\ length b = n /\
            Forall (fun x => (0 <= x)%Q /\ (x <= 1)%Q) b.

(** ** A calibration of two iterations, run by hand *)

Module Calibration2.

Definition sa : result loc * world :=
  simulated_annealing Demo.exp_approx Demo.log_approx Demo.smooth3 Demo.cfg
    0 Demo.cancer_inc 2 1 (1#10) (1#5) true Demo.w10.

Definition annealed : loc := match sa.1 with Ok l => l | Raise _ => 0 end.

Definition looped : result sa_state * world :=
  sa_loop Demo.exp_approx Demo.log_approx Demo.smooth3 Demo.cfg Demo.cancer_inc
    1 (1#10) (1#5) true [0; 1] (mkSA 0 0 0 0) Demo.w10.

Definition looped_state : sa_state :=
  match looped.1 with Ok s => s | Raise _ => mkSA 0 0 0 0 end.

End Calibration2.

(** * Properties *)

(** ** Comparisons and sums on the rationals *)

Lemma Qltb_lt (x y : Q) : Np.Qltb x y = true <-> (x < y)%Q.
Proof.
  unfold Np.Qltb. rewrite negb_true_iff.
  split.
  - intros H. apply Qnot_le_lt. intros Hle.
    apply Qle_bool_iff in Hle. congruence.
  - intros H. destruct (Qle_bool y x) eqn:E; [|reflexivity].
    apply Qle_bool_iff in E. exfalso. eapply Qlt_not_le; eauto.
Qed.

Lemma Qltb_ge (x y : Q) : Np.Qltb x y = false <-> (y <= x)%Q.
Proof.
  unfold Np.Qltb. rewrite negb_false_iff. apply Qle_bool_iff.
Qed.

Lemma sum_app (l1 l2 : list Q) : (Np.sum (l1 ++ l2) == Np.sum l1 + Np.sum l2)%Q.
Proof.
  unfold Np.sum. induction l1 as [|x l1 IH]; simpl.
  - lra.
  - lra.
Qed.

Lemma sum_replicate_0 (n : nat) : (Np.sum (replicate n 0%Q) == 0)%Q.
Proof.
  unfold Np.sum. induction n as [|n IH]; simpl; [reflexivity|]. lra.
Qed.

Lemma sum_alter_succ (l : list Q) (k : nat) :
  k < length l ->
  (Np.sum (alter (fun x => x + 1) k l) == Np.sum l + 1)%Q.
Proof.
  unfold Np.sum, alter.
  revert k. induction l as [|x l IH]; intros k Hk; simpl in *; [lia|].
  destruct k as [|k]; simpl.
  - lra.
  - pose proof (IH k ltac:(lia)) as IHk. lra.
Qed.

Lemma index_lt (n : nat) (i : Z) (k : nat) : Np.index n i = Some k -> k < n.
Proof.
  unfold Np.index. intros H.
  destruct ((0 <=? i)%Z && (i <? Z.of_nat n)%Z) eqn:E1.
  - apply andb_true_iff in E1 as [H1 H2]. inversion H; subst. lia.
  - destruct ((- Z.of_nat n <=? i)%Z && (i <? 0)%Z) eqn:E2; [|discriminate].
    apply andb_true_iff in E2 as [H1 H2]. inversion H; subst. lia.
Qed.

(** For an offset that is not negative, the index is valid exactly below
    the length. *)
Lemma index_nonneg (n : nat) (i : Z) :
  (0 <= i)%Z ->
  Np.index n i = if (i <? Z.of_nat n)%Z then Some (Z.to_nat i) else None.
Proof.
  intros Hi. unfold Np.index.
  destruct (Z.leb_spec 0 i); [|lia]. simpl.
  destruct (Z.ltb_spec i (Z.of_nat n)); [reflexivity|].
  destruct (Z.ltb_spec i 0); [lia|]. by rewrite andb_false_r.
Qed.

(** ** Patient.run *)

(** C2.  Whatever the patient's history was before, the history returned by
    [Patient.run] maps "Healthy" to the starting age and "Other Death" to the
    sampled death age, and has a "Cancer" entry (mapped to the sampled onset
    age) exactly when the sampled onset age is at most the sampled death
    age.  The two samples come from the next two draws of the stream. *)
Theorem Patient_run_history (cfg : config) (p : Patient) (cancer_pdf : list Q) (g : rng) :
  let ac_age := death_age cfg p (tape g (cursor g)) in
  let cancer_age := onset_age p cancer_pdf (tape g (S (cursor g))) in
  let h := history (Patient_run cfg p cancer_pdf g).1 in
  h !! "Healthy" = Some (age p) /\
  h !! "Other Death" = Some ac_age /\
  (is_Some (h !! "Cancer") <-> (cancer_age <= ac_age)%Z) /\
  (forall c, h !! "Cancer" = Some c -> c = cancer_age) /\
  dom h ⊆ ({["Healthy"; "Cancer"; "Other Death"]} : gset string).
Proof.
  intros ac_age cancer_age h.
  subst h ac_age cancer_age.
  unfold Patient_run, Patient_reset, rand_rng, death_age, onset_age. simpl.
  match goal with |- context [(?a <=? ?b)%Z] => destruct (Z.leb_spec a b) as [Hle|Hgt] end.
  - split; [by rewrite !lookup_insert_ne, lookup_singleton_eq|].
    split; [by rewrite lookup_insert_eq|].
    split; [|split].
    + split; [intros _; exact Hle|]. intros _.
      rewrite lookup_insert_ne by done. rewrite lookup_insert_eq. eauto.
    + intros c. rewrite lookup_insert_ne by done. rewrite lookup_insert_eq. congruence.
    + rewrite !dom_insert_L, dom_singleton_L. set_solver.
  - split; [by rewrite lookup_insert_ne, lookup_singleton_eq|].
    split; [by rewrite lookup_insert_eq|].
    split; [|split].
    + split; [|lia]. intros [c Hc].
      rewrite !lookup_insert_ne, lookup_singleton_ne in Hc; done.
    + intros c Hc.
      rewrite !lookup_insert_ne, lookup_singleton_ne in Hc; done.
    + rewrite !dom_insert_L, dom_singleton_L.
      intros x. rewrite !elem_of_union, !elem_of_singleton. tauto.
Qed.

(** ** Running the monad *)


Lemma bind_inv_Ok {A B} (m : M A) (k : A -> M B) (w w2 : world) (b : B) :
  bind m k w = (Ok b, w2) ->
  exists a w1, m w = (Ok a, w1) /\ k a w1 = (Ok b, w2).
Proof.
  unfold bind. destruct (m w) as [[a|e] w1]; [eauto|discriminate].
Qed.

Ltac run_prog :=
  unfold bind, ret, lift, gets, modify_des, modify, dict_get; simpl.

(** ** The aggregation of one history *)

Lemma mort_incr_spec (i : Z) (w : world) :
  mort_incr i w =
    match Np.index (length (acMortArr (w_des w))) i with
    | Some k => (Ok tt, set_des (set_acMortArr
                   (alter (fun x => (x + 1)%Q) k (acMortArr (w_des w))) (w_des w)) w)
    | None => (Raise IndexError, w)
    end.
Proof.
  unfold mort_incr, Np.incr. run_prog.
  by destruct (Np.index _ i).
Qed.

Lemma inc_incr_spec (i : Z) (w : world) :
  inc_incr i w =
    match Np.index (length (cancerIncArr (w_des w))) i with
    | Some k => (Ok tt, set_des (set_cancerIncArr
                   (alter (fun x => (x + 1)%Q) k (cancerIncArr (w_des w))) (w_des w)) w)
    | None => (Raise IndexError, w)
    end.
Proof.
  unfold inc_incr, Np.incr. run_prog.
  by destruct (Np.index _ i).
Qed.

Lemma record_history_spec (cfg : config) (h : gmap string Z) (w : world) :
  record_history cfg h w =
    match h !! "Other Death" with
    | None => (Raise KeyError, with_logged h w)
    | Some d =>
        match mort_incr (d - START_AGE cfg) (with_logged h w) with
        | (Ok _, w2) =>
            match h !! "Cancer" with
            | None => (Ok tt, w2)
            | Some c => inc_incr (c - START_AGE cfg) w2
            end
        | (Raise e, w2) => (Raise e, w2)
        end
    end.
Proof.
  unfold record_history, bind, try_pass, dict_get, modify_des, modify, ret, lift, with_logged.
  destruct (h !! "Other Death") as [d|]; [|reflexivity].
  destruct (mort_incr _ _) as [[[]|e] w2]; [|reflexivity].
  destruct (h !! "Cancer") as [c|]; [|reflexivity].
  rewrite inc_incr_spec. by destruct (Np.index _ _).
Qed.

(** C8.  A history without a "Cancer" entry is aggregated without any error
    from the incidence step: the history is logged, the mortality count of
    its death offset goes up by one, the incidence counts are left as they
    were, and the result is a normal return.  (The mortality increment comes
    first; when the death offset is no index of the array that increment
    raises, before the incidence step is reached.) *)
Theorem record_history_no_cancer (cfg : config) (h : gmap string Z) (w : world) (d : Z) :
  h !! "Cancer" = None ->
  h !! "Other Death" = Some d ->
  match Np.index (length (acMortArr (w_des w))) (d - START_AGE cfg) with
  | Some k =>
      exists w',
        record_history cfg h w = (Ok tt, w') /\
        log (w_des w') = log (w_des w) ++ [h] /\
        acMortArr (w_des w') = alter (fun x => (x + 1)%Q) k (acMortArr (w_des w)) /\
        cancerIncArr (w_des w') = cancerIncArr (w_des w)
  | None => record_history cfg h w = (Raise IndexError, with_logged h w)
  end.
Proof.
  intros Hc Hd.
  rewrite record_history_spec, Hd, mort_incr_spec, Hc. simpl.
  destruct (Np.index (length (acMortArr (w_des w))) (d - START_AGE cfg)) as [k|].
  - eexists. split; [reflexivity|]. simpl. auto.
  - reflexivity.
Qed.

(** ** The loop over the cohort *)

Lemma DES_reset_spec (cfg : config) (w : world) :
  DES_reset cfg w =
    if (n_ages cfg <? 0)%Z
    then (Raise ValueError, set_des (set_log [] (w_des w)) w)
    else (Ok tt, zeroed cfg w).
Proof.
  unfold DES_reset, Np.zeros, zeroed. run_prog.
  by destruct (n_ages cfg <? 0)%Z.
Qed.

Lemma run_body_spec (cfg : config) (cancer_pdf : list Q) (k : nat) (w : world) :
  run_body cfg cancer_pdf k w =
    match patients (w_des w) !! k with
    | None => (Raise IndexError, w)
    | Some p =>
        let p' := (Patient_run cfg p cancer_pdf (w_rng w)).1 in
        let g := (Patient_run cfg p cancer_pdf (w_rng w)).2 in
        record_history cfg (history p')
          (set_rng g (set_des (set_patients (<[k := p']> (patients (w_des w))) (w_des w)) w))
    end.
Proof.
  unfold run_body, run_patient, bind.
  destruct (patients (w_des w) !! k) as [p|]; [|reflexivity].
  by destruct (Patient_run cfg p cancer_pdf (w_rng w)) as [p' g].
Qed.

Lemma Patient_run_frame (cfg : config) (p : Patient) (cancer_pdf : list Q) (g : rng) :
  age (Patient_run cfg p cancer_pdf g).1 = age p /\
  pid (Patient_run cfg p cancer_pdf g).1 = pid p /\
  (Patient_run cfg p cancer_pdf g).2 = mkRng (tape g) (cursor g + 2).
Proof.
  unfold Patient_run, rand_rng. simpl.
  repeat split. f_equal. lia.
Qed.

Lemma progress_refl (w : world) : progress 0 w w.
Proof.
  unfold progress. change (inject_Z (Z.of_nat 0)) with 0%Q.
  repeat split; try reflexivity; try lia; try lra. auto.
Qed.

Lemma inject_Z_of_nat_add (n m : nat) :
  (inject_Z (Z.of_nat (n + m)) == inject_Z (Z.of_nat n) + inject_Z (Z.of_nat m))%Q.
Proof. rewrite Nat2Z.inj_add, inject_Z_plus. reflexivity. Qed.

Lemma progress_trans (n m : nat) (w w1 w2 : world) :
  progress n w w1 -> progress m w1 w2 -> progress (n + m) w w2.
Proof.
  unfold progress.
  intros (H1 & H2 & H3 & H4 & H5 & H6 & H7 & H8 & H9 & H10 & H11 & H12)
         (K1 & K2 & K3 & K4 & K5 & K6 & K7 & K8 & K9 & K10 & K11 & K12).
  pose proof (inject_Z_of_nat_add n m) as Hnm.
  repeat split; try congruence; try lia; try lra. auto.
Qed.

Lemma alter_ages (ps : list Patient) (k : nat) (p p' : Patient) :
  ps !! k = Some p -> age p' = age p ->
  age <$> <[k := p']> ps = age <$> ps.
Proof.
  intros Hk Hage. rewrite list_fmap_insert, Hage.
  apply list_insert_id. by rewrite list_lookup_fmap, Hk.
Qed.

Lemma record_history_Ok (cfg : config) (h : gmap string Z) (w w' : world) :
  record_history cfg h w = (Ok tt, w') ->
  w_heap w' = w_heap w /\ w_out w' = w_out w /\ w_rng w' = w_rng w /\
  num_patients (w_des w') = num_patients (w_des w) /\
  patients (w_des w') = patients (w_des w) /\
  length (acMortArr (w_des w')) = length (acMortArr (w_des w)) /\
  length (cancerIncArr (w_des w')) = length (cancerIncArr (w_des w)) /\
  (Np.sum (acMortArr (w_des w')) == Np.sum (acMortArr (w_des w)) + 1)%Q /\
  (Np.sum (cancerIncArr (w_des w)) <= Np.sum (cancerIncArr (w_des w')))%Q /\
  (Np.sum (cancerIncArr (w_des w')) <= Np.sum (cancerIncArr (w_des w)) + 1)%Q /\
  (Forall (fun x => (0 <= x)%Q) (acMortArr (w_des w)) ->
   Forall (fun x => (0 <= x)%Q) (acMortArr (w_des w'))).
Proof.
  assert (Hnn : forall (l : list Q) (i : nat),
             Forall (fun x => (0 <= x)%Q) l ->
             Forall (fun x => (0 <= x)%Q) (alter (fun x => (x + 1)%Q) i l)).
  { intros l i Hl. apply Forall_alter; [assumption|]. intros x _ Hx. lra. }
  rewrite record_history_spec.
  destruct (h !! "Other Death") as [d|]; [|discriminate].
  rewrite mort_incr_spec.
  change (acMortArr (w_des (with_logged h w))) with (acMortArr (w_des w)).
  destruct (Np.index (length (acMortArr (w_des w))) (d - START_AGE cfg)) as [i|] eqn:Hi;
    [|discriminate].
  pose proof (sum_alter_succ (acMortArr (w_des w)) i (index_lt _ _ _ Hi)) as Hsum.
  destruct (h !! "Cancer") as [c|].
  - rewrite inc_incr_spec.
    match goal with |- context [Np.index (length ?a) ?x] =>
      change a with (cancerIncArr (w_des w));
      destruct (Np.index (length (cancerIncArr (w_des w))) x) as [j|] eqn:Hj;
      [|discriminate] end.
    pose proof (sum_alter_succ (cancerIncArr (w_des w)) j (index_lt _ _ _ Hj)) as Hsum'.
    intros H. inversion H; subst; clear H. simpl.
    rewrite !length_alter.
    repeat split; try reflexivity; try assumption; try lra. apply Hnn.
  - intros H. inversion H; subst; clear H. simpl.
    rewrite !length_alter.
    repeat split; try reflexivity; try assumption; try lra. apply Hnn.
Qed.

Lemma run_body_progress (cfg : config) (cancer_pdf : list Q) (k : nat) (w w' : world) :
  run_body cfg cancer_pdf k w = (Ok tt, w') -> progress 1 w w'.
Proof.
  rewrite run_body_spec.
  destruct (patients (w_des w) !! k) as [p|] eqn:Hk; [|discriminate].
  destruct (Patient_run_frame cfg p cancer_pdf (w_rng w)) as (Hage & _ & Hg).
  cbv zeta. rewrite Hg. set (p' := (Patient_run cfg p cancer_pdf (w_rng w)).1) in *.
  generalize (history p'). intros h H.
  apply record_history_Ok in H as (H1 & H2 & H3 & H4 & H5 & H6 & H7 & H8 & H9 & H10 & H11).
  pose proof (alter_ages _ _ _ _ Hk Hage) as Hages.
  simpl in *. unfold progress. rewrite H3, H5. simpl.
  change (inject_Z (Z.of_nat 1)) with 1%Q.
  repeat split; try assumption; try lia.
Qed.

Lemma for_each_progress (cfg : config) (cancer_pdf : list Q) (ks : list nat) (w w' : world) :
  for_each ks (run_body cfg cancer_pdf) w = (Ok tt, w') -> progress (length ks) w w'.
Proof.
  revert w. induction ks as [|k ks IH]; intros w H; simpl in *.
  - unfold ret in H. inversion H; subst. apply progress_refl.
  - apply bind_inv_Ok in H as ([] & w1 & H1 & H2).
    apply (progress_trans 1 (length ks) w w1 w').
    + eapply run_body_progress; eauto.
    + by apply IH.
Qed.

Lemma DES_count_inv (cfg : config) (cancer_pdf : list Q) (w w1 : world) :
  DES_count cfg cancer_pdf w = (Ok tt, w1) ->
  (0 <= n_ages cfg)%Z /\
  progress (length (patients (w_des w))) (zeroed cfg w) w1.
Proof.
  unfold DES_count. intros H.
  apply bind_inv_Ok in H as ([] & w0 & H0 & H).
  rewrite DES_reset_spec in H0.
  destruct (Z.ltb_spec (n_ages cfg) 0); [discriminate|].
  inversion H0; subst; clear H0.
  unfold bind, gets in H. simpl in H.
  split; [assumption|]. by apply for_each_progress in H; rewrite length_seq in H.
Qed.

Lemma DES_run_inv (cfg : config) (cancer_pdf : list Q) (w w2 : world) :
  DES_run cfg cancer_pdf w = (Ok tt, w2) ->
  exists w1, DES_count cfg cancer_pdf w = (Ok tt, w1) /\ DES_normalise w1 = (Ok tt, w2).
Proof.
  unfold DES_run. intros H.
  apply bind_inv_Ok in H as ([] & w1 & H1 & H2). eauto.
Qed.

(** ** Cumulative sums *)

Lemma cumsum_from_length (acc : Q) (l : list Q) : length (Np.cumsum_from acc l) = length l.
Proof. revert acc. induction l as [|x l IH]; intros acc; simpl; [done|]. by rewrite IH. Qed.

Lemma cumsum_length (l : list Q) : length (Np.cumsum l) = length l.
Proof. destruct l; simpl; [done|]. by rewrite cumsum_from_length. Qed.

Lemma cumsum_from_lookup (acc : Q) (l : list Q) (a : nat) (s : Q) :
  Np.cumsum_from acc l !! a = Some s -> (s == acc + Np.sum (take (S a) l))%Q.
Proof.
  unfold Np.sum.
  revert acc a. induction l as [|x l IH]; intros acc a H; simpl in *; [discriminate|].
  destruct a as [|a]; simpl in *.
  - inversion H; subst. simpl. lra.
  - apply IH in H. simpl in H. lra.
Qed.

(** Entry [a] of [np.cumsum] counts the bins [0..a], bin [a] included. *)
Lemma cumsum_lookup (l : list Q) (a : nat) (s : Q) :
  Np.cumsum l !! a = Some s -> (s == Np.sum (take (S a) l))%Q.
Proof.
  destruct l as [|x l]; simpl; [discriminate|].
  destruct a as [|a]; simpl.
  - intros H. inversion H; subst. unfold Np.sum. simpl. lra.
  - intros H. apply cumsum_from_lookup in H. unfold Np.sum in *. simpl in *. lra.
Qed.

Lemma sum_nonneg (l : list Q) :
  Forall (fun x => (0 <= x)%Q) l -> (0 <= Np.sum l)%Q.
Proof.
  unfold Np.sum. induction 1 as [|x l Hx Hl IH]; simpl; lra.
Qed.

Lemma sum_take_le (l : list Q) (n : nat) :
  Forall (fun x => (0 <= x)%Q) l -> (Np.sum (take n l) <= Np.sum l)%Q.
Proof.
  intros Hl. rewrite <- (take_drop n l) at 2. rewrite sum_app.
  pose proof (sum_nonneg (drop n l) (Forall_drop _ n _ Hl)). lra.
Qed.

(** ** The aggregated curves *)

Lemma zeroed_progress (cfg : config) (n : nat) (w w1 : world) :
  (0 <= n_ages cfg)%Z ->
  progress n (zeroed cfg w) w1 ->
  num_patients (w_des w1) = num_patients (w_des w) /\
  length (acMortArr (w_des w1)) = Z.to_nat (n_ages cfg) /\
  length (cancerIncArr (w_des w1)) = Z.to_nat (n_ages cfg) /\
  (Np.sum (acMortArr (w_des w1)) == inject_Z (Z.of_nat n))%Q /\
  (0 <= Np.sum (cancerIncArr (w_des w1)))%Q /\
  (Np.sum (cancerIncArr (w_des w1)) <= inject_Z (Z.of_nat n))%Q /\
  Forall (fun x => (0 <= x)%Q) (acMortArr (w_des w1)).
Proof.
  intros Hn (H1 & H2 & H3 & H4 & H5 & H6 & H7 & H8 & H9 & H10 & H11 & H12).
  simpl in *. rewrite length_replicate in *.
  pose proof (sum_replicate_0 (Z.to_nat (n_ages cfg))) as Hz.
  repeat split; try assumption; try lra.
  apply H12. apply Forall_replicate. lra.
Qed.

(** C4.  When [run] completes on a cohort that has [num_patients] patients,
    the mortality counts sum to the population, and the incidence counts the
    loop has accumulated (the array before line 85 turns it into rates) sum
    to at most the population. *)
Theorem DES_run_count_sums (cfg : config) (cancer_pdf : list Q) (w w2 : world) :
  Z.of_nat (length (patients (w_des w))) = num_patients (w_des w) ->
  DES_run cfg cancer_pdf w = (Ok tt, w2) ->
  exists w1,
    DES_count cfg cancer_pdf w = (Ok tt, w1) /\
    DES_normalise w1 = (Ok tt, w2) /\
    acMortArr (w_des w2) = acMortArr (w_des w1) /\
    (Np.sum (acMortArr (w_des w2)) == population w2)%Q /\
    (Np.sum (cancerIncArr (w_des w1)) <= population w2)%Q.
Proof.
  intros Hpop Hrun.
  destruct (DES_run_inv _ _ _ _ Hrun) as (w1 & Hcount & Hnorm).
  exists w1. split; [assumption|]. split; [assumption|].
  destruct (DES_count_inv _ _ _ _ Hcount) as (Hn & Hprog).
  destruct (zeroed_progress _ _ _ _ Hn Hprog) as (Hnum & _ & _ & Hm & _ & Hi & _).
  unfold DES_normalise, modify_des, modify in Hnorm.
  inversion Hnorm; subst; clear Hnorm. unfold population. simpl.
  rewrite Hnum, <- Hpop. auto.
Qed.

(** C1, as the code has it.  When [run] completes, the rate of every bin [a]
    is [100000 * count[a] / (alive[a] + 1)], where [count] is the incidence
    count the loop has accumulated and [alive[a]] is the population minus
    the deaths of the bins up to and including [a] ([np.cumsum]); on a cohort
    that has [num_patients] patients [alive[a]] is not negative, so the
    quotient is defined. *)
Theorem DES_run_incidence_rate (cfg : config) (cancer_pdf : list Q) (w w2 : world) :
  DES_run cfg cancer_pdf w = (Ok tt, w2) ->
  exists w1,
    DES_count cfg cancer_pdf w = (Ok tt, w1) /\
    acMortArr (w_des w2) = acMortArr (w_des w1) /\
    length (cancerIncArr (w_des w2)) = length (cancerIncArr (w_des w1)) /\
    forall (a : nat) (count : Q),
      cancerIncArr (w_des w1) !! a = Some count ->
      let alive := alive_through (population w1) (acMortArr (w_des w1)) a in
      (exists r, cancerIncArr (w_des w2) !! a = Some r /\
                 (r == 100000 * count / (alive + 1))%Q) /\
      (Z.of_nat (length (patients (w_des w))) = num_patients (w_des w) ->
       (0 <= alive)%Q).
Proof.
  intros Hrun.
  destruct (DES_run_inv _ _ _ _ Hrun) as (w1 & Hcount & Hnorm).
  exists w1. split; [assumption|].
  destruct (DES_count_inv _ _ _ _ Hcount) as (Hn & Hprog).
  destruct (zeroed_progress _ _ _ _ Hn Hprog) as (Hnum & Hlm & Hli & Hm & _ & _ & Hnn).
  unfold DES_normalise, modify_des, modify in Hnorm.
  inversion Hnorm; subst; clear Hnorm. simpl.
  split; [reflexivity|]. split.
  { rewrite length_zip_with, length_fmap, cumsum_length. lia. }
  intros a count Ha.
  assert (Hlt : a < length (acMortArr (w_des w1))).
  { apply lookup_lt_Some in Ha. lia. }
  rewrite <- cumsum_length in Hlt.
  destruct (lookup_lt_is_Some_2 _ _ Hlt) as [s Hs].
  pose proof (cumsum_lookup _ _ _ Hs) as Hsum.
  split.
  - exists (rate count (population w1 - s)). split.
    + rewrite lookup_zip_with, Ha. simpl.
      rewrite list_lookup_fmap, Hs. reflexivity.
    + unfold rate, alive_through. rewrite Hsum.
      unfold Qdiv. ring.
  - intros Hpop. unfold alive_through, population.
    pose proof (sum_take_le _ (S a) Hnn) as Hle.
    rewrite Hnum, <- Hpop. lra.
Qed.

(** ** The small cohort, run

    What the demonstration inputs evaluate to. *)

Module DemoRun.
Import Demo.

Lemma des_is_init : DES_init cfg 3 0 = Ok des.
Proof. reflexivity. Qed.

Lemma count_completes : DES_count cfg cancer_pdf w = (Ok tt, counted).
Proof. vm_compute. reflexivity. Qed.

Lemma run_completes : DES_run cfg cancer_pdf w = (Ok tt, ran).
Proof. vm_compute. reflexivity. Qed.

Lemma counts :
  acMortArr (w_des counted) = [2%Q; 1%Q] /\ cancerIncArr (w_des counted) = [1%Q; 1%Q].
Proof. vm_compute. split; reflexivity. Qed.

Lemma draws_uniform (n : nat) : (0 <= draws n)%Q /\ (draws n < 1)%Q.
Proof.
  unfold draws.
  do 6 (destruct n as [|n]; [split; [discriminate|reflexivity]|]).
  destruct n; split; (discriminate || reflexivity).
Qed.




End DemoRun.

Lemma DES_run_count_sums_witness :
  Z.of_nat (length (patients (w_des Demo.w))) = num_patients (w_des Demo.w) /\
  DES_run Demo.cfg Demo.cancer_pdf Demo.w = (Ok tt, Demo.ran) /\
  exists w1,
    DES_count Demo.cfg Demo.cancer_pdf Demo.w = (Ok tt, w1) /\
    DES_normalise w1 = (Ok tt, Demo.ran) /\
    acMortArr (w_des Demo.ran) = acMortArr (w_des w1) /\
    (Np.sum (acMortArr (w_des Demo.ran)) == population Demo.ran)%Q /\
    (Np.sum (cancerIncArr (w_des w1)) <= population Demo.ran)%Q.
Proof.
  split; [reflexivity|]. split; [exact DemoRun.run_completes|].
  apply (DES_run_count_sums Demo.cfg Demo.cancer_pdf Demo.w Demo.ran);
    [reflexivity | exact DemoRun.run_completes].
Defined.

Lemma DES_run_incidence_rate_witness :
  DES_run Demo.cfg Demo.cancer_pdf Demo.w = (Ok tt, Demo.ran) /\
  exists w1,
    DES_count Demo.cfg Demo.cancer_pdf Demo.w = (Ok tt, w1) /\
    acMortArr (w_des Demo.ran) = acMortArr (w_des w1) /\
    length (cancerIncArr (w_des Demo.ran)) = length (cancerIncArr (w_des w1)) /\
    forall (a : nat) (count : Q),
      cancerIncArr (w_des w1) !! a = Some count ->
      let alive := alive_through (population w1) (acMortArr (w_des w1)) a in
      (exists r, cancerIncArr (w_des Demo.ran) !! a = Some r /\
                 (r == 100000 * count / (alive + 1))%Q) /\
      (Z.of_nat (length (patients (w_des Demo.w))) = num_patients (w_des Demo.w) ->
       (0 <= alive)%Q).
Proof.
  split; [exact DemoRun.run_completes|].
  apply (DES_run_incidence_rate Demo.cfg Demo.cancer_pdf Demo.w Demo.ran DemoRun.run_completes).
Defined.

(** C1, read with the deaths strictly before the bin, fails on the small
    cohort: bin 0 has one case and two deaths in a population of three, the
    code's rate is [100000 * 1 / (1 + 1)], and leaving the deaths of bin 0
    out of the denominator would give [100000 * 1 / (3 + 1)]. *)
Lemma DES_run_rate_not_alive_before :
  exists count r,
    cancerIncArr (w_des Demo.counted) !! 0 = Some count /\
    cancerIncArr (w_des Demo.ran) !! 0 = Some r /\
    (r == 50000)%Q /\
    (alive_before (population Demo.counted) (acMortArr (w_des Demo.counted)) 0 == 3)%Q /\
    ~ (r == 100000 * count /
            (alive_before (population Demo.counted) (acMortArr (w_des Demo.counted)) 0 + 1))%Q.
Proof.
  eexists. eexists.
  split; [vm_compute; reflexivity|].
  split; [vm_compute; reflexivity|].
  split; [reflexivity|].
  split; [reflexivity|].
  intros H. vm_compute in H. discriminate H.
Qed.

Lemma record_history_no_cancer_witness :
  let h : gmap string Z := {["Healthy" := 0%Z; "Other Death" := 1%Z]} in
  h !! "Cancer" = None /\
  h !! "Other Death" = Some 1%Z /\
  exists w',
    record_history Demo.cfg h Demo.w = (Ok tt, w') /\
    log (w_des w') = log (w_des Demo.w) ++ [h] /\
    acMortArr (w_des w') = alter (fun x => (x + 1)%Q) 1 (acMortArr (w_des Demo.w)) /\
    cancerIncArr (w_des w') = cancerIncArr (w_des Demo.w).
Proof.
  intros h.
  split; [reflexivity|]. split; [reflexivity|].
  exact (record_history_no_cancer Demo.cfg h Demo.w 1 eq_refl eq_refl).
Defined.

(** ** objective *)

Lemma sq_err_by_index (a b : list Q) :
  length a = length b ->
  sq_err <$> zip a b =
  (fun i => (nth i a 0 - nth i b 0) * (nth i a 0 - nth i b 0))%Q <$> seq 0 (length a).
Proof.
  revert b. induction a as [|x a IH]; intros [|y b] Hlen; simpl in *; try discriminate.
  - reflexivity.
  - f_equal. rewrite <- fmap_S_seq, <- list_fmap_compose.
    etransitivity; [exact (IH b ltac:(lia))|]. reflexivity.
Qed.

Lemma sum_sq_err_nonneg (l : list (Q * Q)) : (0 <= Np.sum (sq_err <$> l))%Q.
Proof.
  apply sum_nonneg. apply Forall_fmap, Forall_forall. intros [x y] _.
  unfold sq_err. simpl. set (d := (x - y)%Q). nra.
Qed.

Lemma sum_sq_err_diag (x : list Q) : (Np.sum (sq_err <$> zip x x) == 0)%Q.
Proof.
  unfold Np.sum. induction x as [|v x IH]; simpl; [reflexivity|].
  unfold sq_err at 1. simpl. rewrite IH. ring.
Qed.

Lemma slice_full {A} (l : list A) (lo hi : Z) :
  length (Np.slice l lo hi) = length l -> Np.slice l lo hi = l.
Proof.
  unfold Np.slice.
  set (start := Np.clamp_bound (length l) lo).
  set (stop := Np.clamp_bound (length l) hi).
  rewrite length_take, length_drop. intros H.
  destruct l as [|x l]; [by rewrite drop_nil, take_nil|].
  simpl in H. assert (start = 0) as -> by lia.
  rewrite drop_0. apply take_ge. simpl. lia.
Qed.

Lemma mean_squared_error_Ok (y_true y_pred : list Q) :
  length y_true = length y_pred -> y_true <> [] ->
  mean_squared_error y_true y_pred =
    Ok (Np.sum (sq_err <$> zip y_true y_pred) / inject_Z (Z.of_nat (length y_true)))%Q.
Proof.
  intros Hlen Hne. unfold mean_squared_error.
  rewrite Hlen, Nat.eqb_refl. simpl.
  destruct y_pred; [destruct y_true; [done|discriminate]|]. reflexivity.
Qed.

(** Without the window and the expected curve having one length, or on an
    empty expected curve, sklearn's validation raises. *)
Lemma objective_raises (cfg : config) (obs exp : list Q) :
  length (window cfg obs) <> length exp \/ exp = [] ->
  objective cfg obs exp = Raise ValueError.
Proof.
  unfold objective, mean_squared_error. fold (window cfg obs).
  intros [Hne| ->].
  - destruct (Nat.eqb_spec (length exp) (length (window cfg obs))); [congruence|].
    reflexivity.
  - simpl. by destruct (window cfg obs).
Qed.

(** C5, with the case sklearn rejects set apart.  When the expected curve is
    not empty and the window [obs[1975 - COHORT_YEAR : 2021 - COHORT_YEAR]]
    has its length, [objective] returns the mean of the squared differences
    between the expected curve and the window; that value is not negative,
    and it is 0 when the observed and the expected curve are the same curve
    [x] (the window of [x] is then all of [x]). *)
Theorem objective_mse (cfg : config) (obs exp : list Q) :
  length (window cfg obs) = length exp ->
  exp <> [] ->
  exists v,
    objective cfg obs exp = Ok v /\
    (v == mean_sq_diff exp (window cfg obs))%Q /\
    (0 <= v)%Q /\
    (obs = exp -> (v == 0)%Q).
Proof.
  intros Hlen Hne. unfold objective. fold (window cfg obs).
  rewrite mean_squared_error_Ok by done.
  eexists. split; [reflexivity|].
  assert (Hpos : (0 < inject_Z (Z.of_nat (length exp)))%Q).
  { destruct exp; [done|]. change 0%Q with (inject_Z 0). rewrite <- Zlt_Qlt. simpl. lia. }
  split; [|split].
  - unfold mean_sq_diff. rewrite sq_err_by_index by done. reflexivity.
  - apply Qle_shift_div_l; [assumption|].
    pose proof (sum_sq_err_nonneg (zip exp (window cfg obs))). lra.
  - intros ->. unfold window in *. rewrite slice_full by done.
    rewrite sum_sq_err_diag. unfold Qdiv. ring.
Qed.

Lemma objective_mse_witness :
  let obs := [1%Q; 2%Q; 3%Q] in
  let exp := [1%Q; 1%Q; 1%Q] in
  length (window Demo.cfg obs) = length exp /\
  exp <> [] /\
  exists v,
    objective Demo.cfg obs exp = Ok v /\
    (v == mean_sq_diff exp (window Demo.cfg obs))%Q /\
    (0 <= v)%Q /\
    (obs = exp -> (v == 0)%Q).
Proof.
  intros obs exp.
  split; [reflexivity|]. split; [discriminate|].
  apply (objective_mse Demo.cfg obs exp); [reflexivity | discriminate].
Defined.

(** C5 without that proviso fails on the empty curve: the window of [[]]
    has the length of [[]], and [objective([], [])] raises instead of
    returning 0. *)
Lemma objective_empty_raises :
  length (window Demo.cfg []) = length ([] : list Q) /\
  objective Demo.cfg [] [] = Raise ValueError.
Proof. split; reflexivity. Qed.

(** ** step *)

Lemma rand_n_spec (n : nat) (w : world) :
  rand_n n w =
    (Ok (tape (w_rng w) <$> seq (cursor (w_rng w)) n),
     set_rng (mkRng (tape (w_rng w)) (cursor (w_rng w) + n)) w).
Proof.
  revert w. induction n as [|n IH]; intros [d h [t c] o].
  - unfold ret, set_rng. simpl. by rewrite Nat.add_0_r.
  - simpl. unfold bind, rand, rand_rng. simpl. rewrite IH. unfold ret, set_rng. simpl.
    by rewrite Nat.add_succ_r.
Qed.

Lemma add_masked_length (a : list Q) (mask : list bool) (vals : list Q) :
  length (Np.add_masked a mask vals) = length a.
Proof.
  revert mask vals. induction a as [|x a IH]; intros [|[] m] vals; simpl; try done.
  - destruct vals; simpl; by rewrite IH.
  - by rewrite IH.
Qed.

(** The entry at a selected position receives the value whose rank is the
    number of selected positions before it. *)
Lemma add_masked_selected (a : list Q) (mask : list bool) (vals : list Q) (i : nat) (x : Q) :
  Np.count_true mask <= length vals ->
  a !! i = Some x -> mask !! i = Some true ->
  exists v, vals !! Np.count_true (take i mask) = Some v /\
            Np.add_masked a mask vals !! i = Some (x + v)%Q.
Proof.
  revert mask vals i. induction a as [|y a IH]; intros [|b m] vals i Hc Ha Hm;
    try discriminate.
  destruct i as [|i]; simpl in *.
  - inversion Ha; inversion Hm; subst.
    destruct vals as [|v vs]; simpl in *; [lia|]. eauto.
  - destruct b; simpl in *.
    + destruct vals as [|v vs]; simpl in *; [lia|].
      apply (IH m vs i); [lia|assumption..].
    + apply (IH m vals i); assumption.
Qed.

Lemma add_masked_unselected (a : list Q) (mask : list bool) (vals : list Q) (i : nat) (x : Q) :
  a !! i = Some x -> mask !! i = Some false ->
  Np.add_masked a mask vals !! i = Some x.
Proof.
  revert mask vals i. induction a as [|y a IH]; intros [|b m] vals i Ha Hm;
    try discriminate.
  destruct i as [|i]; simpl in *.
  - inversion Ha; inversion Hm; subst. reflexivity.
  - destruct b; simpl.
    + destruct vals as [|v vs]; simpl; by apply IH.
    + by apply IH.
Qed.

Lemma uniform_range (low high u : Q) :
  (low <= high)%Q -> (0 <= u)%Q -> (u < 1)%Q ->
  (low <= Np.uniform low high u)%Q /\ (Np.uniform low high u <= high)%Q.
Proof.
  intros Hlh H0 H1. unfold Np.uniform.
  set (d := (high - low)%Q). assert (0 <= d)%Q by (unfold d; lra).
  assert (0 <= d * u)%Q by (apply Qmult_le_0_compat; assumption).
  assert (0 <= d * (1 - u))%Q by (apply Qmult_le_0_compat; lra).
  split; [lra|]. unfold d in *. lra.
Qed.

Lemma clip01_range (x : Q) : (0 <= Np.clip01 x)%Q /\ (Np.clip01 x <= 1)%Q.
Proof.
  unfold Np.clip01.
  destruct (Np.Qltb x 0) eqn:E0; [lra|].
  destruct (Np.Qltb 1 x) eqn:E1; [lra|].
  apply Qltb_ge in E0, E1. lra.
Qed.

Lemma step_perturb_spec (candidate : loc) (step_size mask_size : Q) (w : world) :
  let a := default [] (w_heap w !! candidate) in
  let g := w_rng w in
  let mask := select_mask mask_size (tape g <$> seq (cursor g) (length a)) in
  let k := Np.count_true mask in
  let vals := Np.uniform (- step_size) step_size <$> (tape g <$> seq (cursor g + length a) k) in
  step_perturb candidate step_size mask_size w =
    (Ok tt, set_heap (<[candidate := Np.add_masked a mask vals]> (w_heap w))
              (set_rng (mkRng (tape g) (cursor g + length a + k)) w)).
Proof.
  intros a g mask k vals.
  unfold step_perturb, bind, deref, gets. fold a.
  rewrite rand_n_spec. fold g. fold mask. rewrite rand_n_spec.
  reflexivity.
Qed.

Lemma select_mask_by_index (mask_size : Q) (w : world) (n : nat) :
  select_mask mask_size (tape (w_rng w) <$> seq (cursor (w_rng w)) n) =
  selected mask_size w <$> seq 0 n.
Proof.
  unfold select_mask. rewrite <- list_fmap_compose.
  rewrite <- (Nat.add_0_r (cursor (w_rng w))) at 1.
  rewrite <- fmap_add_seq, <- list_fmap_compose. reflexivity.
Qed.

Lemma count_true_app (l1 l2 : list bool) :
  Np.count_true (l1 ++ l2) = Np.count_true l1 + Np.count_true l2.
Proof. induction l1 as [|b l1 IH]; simpl; [done|]. rewrite IH. lia. Qed.

Lemma rank_increases (mask_size : Q) (w : world) (j i : nat) :
  j < i -> selected mask_size w j = true -> rank mask_size w j < rank mask_size w i.
Proof.
  intros Hji Hj. unfold rank.
  replace i with (S j + (i - S j)) by lia.
  rewrite seq_app, fmap_app, count_true_app, seq_S, fmap_app, count_true_app.
  simpl. rewrite Hj. lia.
Qed.

(** The array the perturbation stage leaves, entry by entry: a selected
    position has received the draw of its rank, scaled to
    [-step_size, step_size]; the others are untouched. *)
Lemma perturbed_entries (step_size mask_size : Q) (w : world) (a : list Q) (i : nat) (x : Q) :
  a !! i = Some x ->
  let mask := selected mask_size w <$> seq 0 (length a) in
  let vals := Np.uniform (- step_size) step_size <$>
                (tape (w_rng w) <$> seq (cursor (w_rng w) + length a) (Np.count_true mask)) in
  let u := perturbation_draw mask_size w (length a) i in
  exists y, Np.add_masked a mask vals !! i = Some y /\
    ((mask_size < mask_draw w i)%Q -> (y == x + (- step_size + 2 * step_size * u))%Q) /\
    (~ (mask_size < mask_draw w i)%Q -> y = x).
Proof.
  intros Hi mask vals u.
  assert (Hlt : i < length a) by (by eapply lookup_lt_Some).
  assert (Hmask : mask !! i = Some (selected mask_size w i)).
  { unfold mask. by rewrite list_lookup_fmap, lookup_seq_lt. }
  assert (Htake : take i mask = selected mask_size w <$> seq 0 i).
  { unfold mask. rewrite <- fmap_take, take_seq. f_equal. f_equal. lia. }
  destruct (selected mask_size w i) eqn:Hsel.
  - destruct (add_masked_selected a mask vals i x) as (v & Hv & Hres); try assumption.
    { unfold vals. rewrite !length_fmap, length_seq. lia. }
    rewrite Htake in Hv. fold (rank mask_size w i) in Hv.
    unfold vals in Hv. rewrite !list_lookup_fmap in Hv.
    destruct (seq (cursor (w_rng w) + length a) (Np.count_true mask) !! rank mask_size w i)
      as [pos|] eqn:Hpos; [|discriminate].
    apply lookup_seq in Hpos as [-> _]. simpl in Hv. inversion Hv; subst v; clear Hv.
    exists (x + Np.uniform (- step_size) step_size
                  (tape (w_rng w) (cursor (w_rng w) + length a + rank mask_size w i)))%Q.
    split; [exact Hres|]. split.
    + intros _. unfold Np.uniform, u, perturbation_draw. ring.
    + intros Hn. exfalso. apply Hn. by apply Qltb_lt.
  - exists x. split; [by apply add_masked_unselected with (mask := mask)|].
    split; [|reflexivity].
    intros Hlt'. apply Qltb_lt in Hlt'. unfold selected in Hsel. congruence.
Qed.

(** C6.  In [step] every position [i] of the array is selected exactly when
    its own draw is strictly above [mask_size].  A selected position
    receives [candidate[i] + (-step_size + 2 * step_size * u)], where [u] is
    the draw read at the stream position of its rank among the selected
    positions, so that two selected positions never share a draw; the
    amount added lies between [-step_size] and [step_size].  A position that
    is not selected keeps its value.  This is the array handed to the
    smoothing filter. *)
Theorem step_perturb_selects (candidate : loc) (step_size mask_size : Q)
    (w : world) (a : list Q) :
  w_heap w !! candidate = Some a ->
  (0 <= step_size)%Q ->
  (forall n, (0 <= tape (w_rng w) n)%Q /\ (tape (w_rng w) n < 1)%Q) ->
  exists w' a',
    step_perturb candidate step_size mask_size w = (Ok tt, w') /\
    w_heap w' !! candidate = Some a' /\
    length a' = length a /\
    forall (i : nat) (x : Q),
      a !! i = Some x ->
      let u := tape (w_rng w) (cursor (w_rng w) + length a + rank mask_size w i) in
      ((mask_size < mask_draw w i)%Q ->
         (exists y, a' !! i = Some y /\
                    (y == x + (- step_size + 2 * step_size * u))%Q) /\
         (- step_size <= - step_size + 2 * step_size * u)%Q /\
         (- step_size + 2 * step_size * u <= step_size)%Q /\
         forall j, j < i -> (mask_size < mask_draw w j)%Q ->
                   rank mask_size w j < rank mask_size w i) /\
      (~ (mask_size < mask_draw w i)%Q -> a' !! i = Some x).
Proof.
  intros Ha Hs Htape.
  pose proof (step_perturb_spec candidate step_size mask_size w) as Hspec.
  rewrite Ha in Hspec. simpl in Hspec.
  rewrite select_mask_by_index in Hspec.
  set (mask := selected mask_size w <$> seq 0 (length a)) in *.
  set (k := Np.count_true mask) in *.
  set (vals := Np.uniform (- step_size) step_size <$>
                 (tape (w_rng w) <$> seq (cursor (w_rng w) + length a) k)) in *.
  eexists. exists (Np.add_masked a mask vals).
  split; [exact Hspec|].
  split; [simpl; apply list_lookup_insert_eq; by eapply lookup_lt_Some|].
  split; [apply add_masked_length|].
  intros i x Hi u.
  destruct (perturbed_entries step_size mask_size w a i x Hi) as (y & Hy & Hsel & Hnsel).
  fold mask k vals in Hy. change (perturbation_draw mask_size w (length a) i) with u in Hsel.
  split.
  - intros Hlt. split; [exists y; split; [exact Hy|exact (Hsel Hlt)]|].
    destruct (Htape (cursor (w_rng w) + length a + rank mask_size w i)) as [H0 H1].
    fold u in H0, H1.
    assert (0 <= step_size * u)%Q by (apply Qmult_le_0_compat; assumption).
    assert (0 <= step_size * (1 - u))%Q by (apply Qmult_le_0_compat; lra).
    split; [lra|]. split; [lra|].
    intros j Hj Hselj. apply rank_increases; [assumption|]. by apply Qltb_lt.
  - intros Hn. rewrite Hy. f_equal. exact (Hnsel Hn).
Qed.

Lemma step_smooth_clip_spec (savgol : list Q -> nat -> Q) (candidate : loc) (w : world) :
  let a := default [] (w_heap w !! candidate) in
  let smoothed := savgol a <$> seq 0 (length a) in
  step_smooth_clip savgol candidate w =
    if (length a <? 10)%nat then (Raise ValueError, w)
    else (Ok (length (w_heap w ++ [smoothed])),
          set_heap ((w_heap w ++ [smoothed]) ++ [Np.clip01 <$> smoothed]) w).
Proof.
  intros a smoothed.
  unfold step_smooth_clip, bind, deref, gets, lift, savgol_filter. fold a.
  destruct (length a <? 10)%nat; [reflexivity|]. fold smoothed.
  unfold alloc. simpl. by rewrite list_lookup_middle.
Qed.

(** C7.  Whenever [step] returns, the returned array is a new array of the
    length of the input whose entries all lie in [0, 1], whatever the draws
    and whatever values the smoothing filter produces.  [step] returns for
    every array of at least ten entries (the filter's window); on a shorter
    one the filter raises ValueError. *)
Theorem step_shape_and_range (savgol : list Q -> nat -> Q) (candidate : loc)
    (step_size mask_size : Q) (w : world) (a : list Q) :
  w_heap w !! candidate = Some a ->
  match step savgol candidate step_size mask_size w with
  | (Ok l', w') =>
      10 <= length a /\ l' <> candidate /\
      exists out,
        w_heap w' !! l' = Some out /\
        length out = length a /\
        Forall (fun x => (0 <= x)%Q /\ (x <= 1)%Q) out
  | (Raise e, _) => e = ValueError /\ length a < 10
  end.
Proof.
  intros Ha. unfold step, bind.
  rewrite step_perturb_spec, Ha. cbv zeta.
  rewrite step_smooth_clip_spec. cbv zeta.
  assert (Hlt : candidate < length (w_heap w)) by (by eapply lookup_lt_Some).
  change (default [] (Some a)) with a.
  match goal with |- context [<[candidate := ?x]> (w_heap w)] => set (a' := x) end.
  assert (Ha' : length a' = length a) by apply add_masked_length.
  cbn [w_heap set_heap set_rng].
  rewrite list_lookup_insert_eq by assumption.
  change (default [] (Some a')) with a'. rewrite Ha'.
  destruct (Nat.ltb_spec (length a) 10) as [Hshort|Hlong].
  - split; [reflexivity|assumption].
  - split; [assumption|]. split.
    { rewrite length_app, length_insert. lia. }
    eexists. split; [by apply list_lookup_middle|].
    split.
    + by rewrite !length_fmap, length_seq.
    + apply Forall_fmap, Forall_forall. intros x _. apply clip01_range.
Qed.

Lemma step_perturb_selects_witness :
  let step_size := (1#10)%Q in
  let mask_size := (1#5)%Q in
  w_heap Demo.w !! 0 = Some Demo.cancer_pdf /\
  (0 <= step_size)%Q /\
  (forall n, (0 <= tape (w_rng Demo.w) n)%Q /\ (tape (w_rng Demo.w) n < 1)%Q) /\
  exists w' a',
    step_perturb 0 step_size mask_size Demo.w = (Ok tt, w') /\
    w_heap w' !! 0 = Some a' /\
    length a' = length Demo.cancer_pdf /\
    forall (i : nat) (x : Q),
      Demo.cancer_pdf !! i = Some x ->
      let u := tape (w_rng Demo.w)
                 (cursor (w_rng Demo.w) + length Demo.cancer_pdf + rank mask_size Demo.w i) in
      ((mask_size < mask_draw Demo.w i)%Q ->
         (exists y, a' !! i = Some y /\
                    (y == x + (- step_size + 2 * step_size * u))%Q) /\
         (- step_size <= - step_size + 2 * step_size * u)%Q /\
         (- step_size + 2 * step_size * u <= step_size)%Q /\
         forall j, j < i -> (mask_size < mask_draw Demo.w j)%Q ->
                   rank mask_size Demo.w j < rank mask_size Demo.w i) /\
      (~ (mask_size < mask_draw Demo.w i)%Q -> a' !! i = Some x).
Proof.
  intros step_size mask_size.
  split; [reflexivity|]. split; [discriminate|]. split; [exact DemoRun.draws_uniform|].
  apply (step_perturb_selects 0 step_size mask_size Demo.w Demo.cancer_pdf);
    [reflexivity | discriminate | exact DemoRun.draws_uniform].
Defined.

Lemma step_shape_and_range_witness :
  w_heap Demo.w10 !! 0 = Some Demo.pdf10 /\
  match step Demo.smooth3 0 (1#10) (1#5) Demo.w10 with
  | (Ok l', w') =>
      10 <= length Demo.pdf10 /\ l' <> 0 /\
      exists out,
        w_heap w' !! l' = Some out /\
        length out = length Demo.pdf10 /\
        Forall (fun x => (0 <= x)%Q /\ (x <= 1)%Q) out
  | (Raise e, _) => e = ValueError /\ length Demo.pdf10 < 10
  end.
Proof.
  split; [reflexivity|].
  exact (step_shape_and_range Demo.smooth3 0 (1#10) (1#5) Demo.w10 Demo.pdf10 eq_refl).
Defined.

(** ** simulated_annealing *)

(** A completed [run] reads the pdf and leaves the store of arrays alone. *)
Lemma DES_run_heap (cfg : config) (cancer_pdf : list Q) (w w2 : world) :
  DES_run cfg cancer_pdf w = (Ok tt, w2) -> w_heap w2 = w_heap w.
Proof.
  intros Hrun.
  destruct (DES_run_inv _ _ _ _ Hrun) as (w1 & Hcount & Hnorm).
  destruct (DES_count_inv _ _ _ _ Hcount) as (_ & Hprog).
  destruct Hprog as (Hheap & _).
  unfold DES_normalise, modify_des, modify in Hnorm.
  inversion Hnorm; subst; clear Hnorm. simpl. by rewrite Hheap.
Qed.

Lemma evaluate_heap (cfg : config) (pdf : loc) (cancer_inc : list Q) (w w1 : world) (s : Q) :
  evaluate cfg pdf cancer_inc w = (Ok s, w1) -> w_heap w1 = w_heap w.
Proof.
  unfold evaluate. intros H.
  apply bind_inv_Ok in H as (a & w' & Ha & H).
  unfold deref, gets in Ha. inversion Ha; subst; clear Ha.
  apply bind_inv_Ok in H as ([] & w2 & Hrun & H).
  apply bind_inv_Ok in H as (obs & w3 & Hobs & H).
  unfold gets in Hobs. inversion Hobs; subst; clear Hobs.
  unfold lift in H. inversion H; subst; clear H.
  eapply DES_run_heap; eauto.
Qed.

(** C9.  With [n_iterations = 0] the loop body never runs.  The call copies
    the initial pdf into a new array, evaluates it once, prints that score
    and returns the copy: an array other than the caller's, with the
    caller's entries, the caller's array still holding them too.  Had the
    one evaluation raised, the call would raise the same exception. *)
Theorem simulated_annealing_zero_iterations
    (np_exp np_log : Q -> Q) (savgol : list Q -> nat -> Q) (cfg : config)
    (cancer_pdf : loc) (cancer_inc : list Q) (start_temp step_size mask_size : Q)
    (verbose : bool) (w : world) (initial : list Q) :
  w_heap w !! cancer_pdf = Some initial ->
  let copy := length (w_heap w) in
  let sa := simulated_annealing np_exp np_log savgol cfg cancer_pdf cancer_inc 0
              start_temp step_size mask_size verbose w in
  match evaluate cfg copy cancer_inc (set_heap (w_heap w ++ [initial]) w) with
  | (Ok score, w1) =>
      sa = (Ok copy, set_out (w_out w1 ++ [PrintScore score]) w1) /\
      copy <> cancer_pdf /\
      w_heap sa.2 !! copy = Some initial /\
      w_heap sa.2 !! cancer_pdf = Some initial /\
      w_out sa.2 = w_out w1 ++ [PrintScore score]
  | (Raise e, w1) => sa = (Raise e, w1)
  end.
Proof.
  intros Ha copy sa.
  assert (Hlt : cancer_pdf < length (w_heap w)) by (by eapply lookup_lt_Some).
  assert (Hsa : sa =
    match evaluate cfg copy cancer_inc (set_heap (w_heap w ++ [initial]) w) with
    | (Ok score, w1) => (Ok copy, set_out (w_out w1 ++ [PrintScore score]) w1)
    | (Raise e, w1) => (Raise e, w1)
    end).
  { subst sa. unfold simulated_annealing, np_copy, bind at 1 2.
    unfold deref, gets, alloc. rewrite Ha. simpl. fold copy.
    unfold bind at 1.
    destruct (evaluate cfg copy cancer_inc _) as [[score|e] w1]; reflexivity. }
  destruct (evaluate cfg copy cancer_inc _) as [[score|e] w1] eqn:Heval; [|exact Hsa].
  apply evaluate_heap in Heval. simpl in Heval.
  rewrite Hsa. simpl. rewrite Heval.
  split; [reflexivity|]. split; [unfold copy; lia|].
  split; [by apply list_lookup_middle|].
  split; [|reflexivity].
  rewrite lookup_app_l by assumption. exact Ha.
Qed.






Lemma simulated_annealing_zero_iterations_witness :
  let sa := simulated_annealing Demo.exp_approx Demo.log_approx Demo.smooth3 Demo.cfg
              0 Demo.cancer_inc 0 1 (1#10) (1#5) true Demo.w in
  w_heap Demo.w !! 0 = Some Demo.cancer_pdf /\
  match evaluate Demo.cfg 1 Demo.cancer_inc
          (set_heap (w_heap Demo.w ++ [Demo.cancer_pdf]) Demo.w) with
  | (Ok score, w1) =>
      sa = (Ok 1, set_out (w_out w1 ++ [PrintScore score]) w1) /\
      1 <> 0 /\
      w_heap sa.2 !! 1 = Some Demo.cancer_pdf /\
      w_heap sa.2 !! 0 = Some Demo.cancer_pdf /\
      w_out sa.2 = w_out w1 ++ [PrintScore score]
  | (Raise e, w1) => sa = (Raise e, w1)
  end.
Proof.
  intros sa. split; [reflexivity|].
  exact (simulated_annealing_zero_iterations Demo.exp_approx Demo.log_approx Demo.smooth3
           Demo.cfg 0 Demo.cancer_inc 1 (1#10) (1#5) true Demo.w Demo.cancer_pdf eq_refl).
Defined.

(** ** Bisection and 64-bit sums *)

(** What the bisection returns between the bounds it is given, whatever
    the order of the array: an index whose left neighbour, if the search
    ever moved right, is below the value, and whose own entry, if the search
    ever moved left, is not. *)
Lemma bisect_spec (a : list Q) (v : Q) (fuel lo hi : nat) :
  lo <= hi -> hi <= length a -> hi - lo <= fuel ->
  let r := Np.bisect fuel a v lo hi in
  lo <= r <= hi /\
  (r = lo \/ exists x, a !! (r - 1) = Some x /\ (x < v)%Q) /\
  (r = hi \/ exists x, a !! r = Some x /\ (v <= x)%Q).
Proof.
  revert lo hi. induction fuel as [|fuel IH]; intros lo hi Hlh Hhi Hfuel; cbn [Np.bisect].
  - assert (lo = hi) by lia. subst. split; [lia|]. split; by left.
  - cbv zeta. destruct (Nat.ltb_spec lo hi) as [Hlt|Hge].
    2:{ assert (lo = hi) by lia. subst. split; [lia|]. split; by left. }
    set (mid := lo + (hi - lo) / 2).
    assert (Hmid : lo <= mid < hi).
    { unfold mid. pose proof (Nat.div_lt (hi - lo) 2 ltac:(lia) ltac:(lia)). lia. }
    destruct (lookup_lt_is_Some_2 a mid ltac:(lia)) as [x Hx].
    rewrite (nth_lookup_Some _ _ 0%Q _ Hx).
    destruct (Np.Qltb x v) eqn:E.
    + apply Qltb_lt in E.
      destruct (IH (S mid) hi ltac:(lia) Hhi ltac:(lia)) as (Hr & Hleft & Hright).
      split; [lia|]. split; [right|exact Hright].
      destruct Hleft as [->|Hleft]; [|exact Hleft].
      exists x. simpl. rewrite Nat.sub_0_r. by split.
    + apply Qltb_ge in E.
      destruct (IH lo mid ltac:(lia) ltac:(lia) ltac:(lia)) as (Hr & Hleft & Hright).
      split; [lia|]. split; [exact Hleft|right].
      destruct Hright as [->|Hright]; [|exact Hright].
      exists x. by split.
Qed.

(** [len(a)] rounds are enough: with more fuel the result is the same. *)
Lemma bisect_fuel (a : list Q) (v : Q) (fuel fuel' lo hi : nat) :
  hi - lo <= fuel -> hi - lo <= fuel' ->
  Np.bisect fuel a v lo hi = Np.bisect fuel' a v lo hi.
Proof.
  revert fuel' lo hi. induction fuel as [|fuel IH]; intros [|fuel'] lo hi H1 H2;
    cbn [Np.bisect]; cbv zeta; try reflexivity.
  - destruct (Nat.ltb_spec lo hi); [lia|reflexivity].
  - destruct (Nat.ltb_spec lo hi); [lia|reflexivity].
  - destruct (Nat.ltb_spec lo hi) as [Hlt|]; [|reflexivity].
    pose proof (Nat.div_lt (hi - lo) 2 ltac:(lia) ltac:(lia)).
    destruct (Np.Qltb _ v); apply IH; lia.
Qed.

(** On a table that is not sorted the bisection probes entries 2 and 4 and
    lands at the end, past the first entry that is not below the value. *)
Example searchsorted_unsorted :
  Np.searchsorted [(1#4)%Q; 1%Q; 0%Q; 0%Q; 0%Q] (1#8) = 5.
Proof. reflexivity. Qed.

Lemma searchsorted_le_length (a : list Q) (v : Q) : Np.searchsorted a v <= length a.
Proof.
  unfold Np.searchsorted.
  destruct (bisect_spec a v (length a) 0 (length a)) as (H & _); lia.
Qed.

(** On a table in non-decreasing order the insertion point is at most the
    index of any entry that is not below the value. *)
Lemma searchsorted_le_index (a : list Q) (v x : Q) (i : nat) :
  non_decreasing a -> a !! i = Some x -> (v <= x)%Q -> Np.searchsorted a v <= i.
Proof.
  intros Hsorted Hi Hv. unfold Np.searchsorted.
  destruct (bisect_spec a v (length a) 0 (length a)) as (_ & Hleft & _); try lia.
  set (r := Np.bisect (length a) a v 0 (length a)) in *.
  destruct Hleft as [->|(y & Hy & Hlt)]; [lia|].
  destruct (Nat.le_gt_cases r i) as [|Hgt]; [assumption|].
  pose proof (Hsorted i (r - 1) x y ltac:(lia) Hi Hy). lra.
Qed.

(** Every entry below the value: the insertion point is the end. *)
Lemma searchsorted_all_below (a : list Q) (v : Q) :
  Forall (fun x => (x < v)%Q) a -> Np.searchsorted a v = length a.
Proof.
  intros Hall. unfold Np.searchsorted.
  destruct (bisect_spec a v (length a) 0 (length a)) as (_ & _ & Hright); try lia.
  destruct Hright as [->|(y & Hy & Hle)]; [reflexivity|].
  eapply Forall_lookup_1 in Hall; [|exact Hy]. simpl in Hall. lra.
Qed.

(** On a table in non-decreasing order the bisection finds the first entry
    that is not below the value: every entry before the insertion point is
    below it, and the entry at the insertion point, if any, is not. *)
Lemma searchsorted_sorted (a : list Q) (v : Q) :
  non_decreasing a ->
  (forall i x, i < Np.searchsorted a v -> a !! i = Some x -> (x < v)%Q) /\
  (forall x, a !! Np.searchsorted a v = Some x -> (v <= x)%Q).
Proof.
  intros Hsorted. unfold Np.searchsorted.
  destruct (bisect_spec a v (length a) 0 (length a)) as (Hr & Hleft & Hright); try lia.
  set (r := Np.bisect (length a) a v 0 (length a)) in *.
  split.
  - intros i x Hi Hx. destruct Hleft as [H0|(y & Hy & Hlt)]; [lia|].
    pose proof (Hsorted i (r - 1) x y ltac:(lia) Hx Hy). lra.
  - intros x Hx. destruct Hright as [Hend|(y & Hy & Hle)].
    + apply lookup_lt_Some in Hx. lia.
    + congruence.
Qed.

(** A sum that stays in the 64-bit range is the sum. *)
Lemma int64_in_range (z : Z) :
  (Np.int64_min <= z <= Np.int64_max)%Z -> Np.int64 z = z.
Proof.
  unfold Np.int64_min, Np.int64_max, Np.int64. intros H.
  rewrite Z.mod_small by lia. lia.
Qed.

(** Beyond it the sum wraps around. *)
Lemma int64_wraps : Np.int64_add 1 Np.int64_max = Np.int64_min.
Proof. reflexivity. Qed.

Lemma death_age_no_wrap (cfg : config) (p : Patient) (u : Q) :
  (Np.int64_min <= age p)%Z ->
  (age p + Z.of_nat (length (condCDF cfg)) <= Np.int64_max)%Z ->
  death_age cfg p u = (Z.of_nat (Np.searchsorted (condCDF cfg) u) + age p)%Z.
Proof.
  intros Hlo Hhi. unfold death_age, Np.int64_add.
  pose proof (searchsorted_le_length (condCDF cfg) u).
  apply int64_in_range. lia.
Qed.

Lemma onset_age_no_wrap (p : Patient) (cancer_pdf : list Q) (u : Q) :
  (Np.int64_min <= age p)%Z ->
  (age p + Z.of_nat (length cancer_pdf) <= Np.int64_max)%Z ->
  onset_age p cancer_pdf u = (Z.of_nat (Np.searchsorted (Np.cumsum cancer_pdf) u) + age p)%Z.
Proof.
  intros Hlo Hhi. unfold onset_age, Np.int64_add.
  pose proof (searchsorted_le_length (Np.cumsum cancer_pdf) u) as H.
  rewrite cumsum_length in H.
  apply int64_in_range. lia.
Qed.

Lemma age_in_range_min (cfg : config) (cancer_pdf : list Q) (a : Z) :
  age_in_range cfg cancer_pdf a -> (Np.int64_min <= a)%Z.
Proof. intros (H0 & Hs & _). unfold Np.int64_min. lia. Qed.

Lemma death_age_in_range (cfg : config) (cancer_pdf : list Q) (p : Patient) (u : Q) :
  age_in_range cfg cancer_pdf (age p) ->
  death_age cfg p u = (Z.of_nat (Np.searchsorted (condCDF cfg) u) + age p)%Z.
Proof.
  intros H. apply death_age_no_wrap; [by eapply age_in_range_min|].
  by destruct H as (_ & _ & H & _).
Qed.

Lemma onset_age_in_range (cfg : config) (cancer_pdf : list Q) (p : Patient) (u : Q) :
  age_in_range cfg cancer_pdf (age p) ->
  onset_age p cancer_pdf u = (Z.of_nat (Np.searchsorted (Np.cumsum cancer_pdf) u) + age p)%Z.
Proof.
  intros H. apply onset_age_no_wrap; [by eapply age_in_range_min|].
  by destruct H as (_ & _ & _ & H).
Qed.

(** ** When run raises *)

Lemma Patient_run_history_eq (cfg : config) (p : Patient) (cancer_pdf : list Q) (g : rng) :
  let d := death_age cfg p (tape g (cursor g)) in
  let c := onset_age p cancer_pdf (tape g (S (cursor g))) in
  history (Patient_run cfg p cancer_pdf g).1 =
    <["Other Death" := d]>
      (if (c <=? d)%Z then <["Cancer" := c]> {["Healthy" := age p]}
       else {["Healthy" := age p]}).
Proof. reflexivity. Qed.

(** A recorded onset beyond the arrays never reaches the incidence
    increment: the death is not earlier, and the mortality increment, which
    comes first, raises (the mortality counts are as before). *)
Lemma record_history_onset_beyond (cfg : config) (h : gmap string Z) (w : world) (c d : Z) :
  h !! "Cancer" = Some c -> h !! "Other Death" = Some d ->
  (c <= d)%Z ->
  (Z.of_nat (length (acMortArr (w_des w))) <= c - START_AGE cfg)%Z ->
  record_history cfg h w = (Raise IndexError, with_logged h w).
Proof.
  intros Hc Hd Hcd Hbeyond.
  rewrite record_history_spec, Hd, mort_incr_spec.
  change (acMortArr (w_des (with_logged h w))) with (acMortArr (w_des w)).
  rewrite index_nonneg by lia.
  destruct (Z.ltb_spec (d - START_AGE cfg) (Z.of_nat (length (acMortArr (w_des w))))); [lia|].
  reflexivity.
Qed.

(** One iteration of the loop completes exactly when the death offset is
    below the length of the arrays, for a patient whose sampled ages stay
    in the 64-bit range. *)
Lemma run_body_outcome (cfg : config) (cancer_pdf : list Q) (k : nat) (w : world) (a : Z) :
  (age <$> patients (w_des w)) !! k = Some a ->
  age_in_range cfg cancer_pdf a ->
  length (cancerIncArr (w_des w)) = length (acMortArr (w_des w)) ->
  let off := death_offset cfg a (tape (w_rng w) (cursor (w_rng w))) in
  if (off <? Z.of_nat (length (acMortArr (w_des w))))%Z
  then exists w', run_body cfg cancer_pdf k w = (Ok tt, w')
  else exists w', run_body cfg cancer_pdf k w = (Raise IndexError, w').
Proof.
  intros Hk Hage Hlen off.
  rewrite list_lookup_fmap in Hk.
  destruct (patients (w_des w) !! k) as [p|] eqn:Hp; [|discriminate].
  simpl in Hk. inversion Hk; subst a; clear Hk.
  rewrite run_body_spec, Hp. cbv zeta.
  rewrite record_history_spec, Patient_run_history_eq.
  set (d := death_age cfg p (tape (w_rng w) (cursor (w_rng w)))).
  set (c := onset_age p cancer_pdf (tape (w_rng w) (S (cursor (w_rng w))))).
  assert (Hd : d = (Z.of_nat (Np.searchsorted (condCDF cfg)
                                (tape (w_rng w) (cursor (w_rng w)))) + age p)%Z)
    by (by apply death_age_in_range with (cancer_pdf := cancer_pdf)).
  assert (Hc : c = (Z.of_nat (Np.searchsorted (Np.cumsum cancer_pdf)
                                (tape (w_rng w) (S (cursor (w_rng w))))) + age p)%Z)
    by (by apply onset_age_in_range with (cfg := cfg)).
  destruct Hage as (_ & Hage & _).
  assert (Hoff : off = (d - START_AGE cfg)%Z) by (unfold off, death_offset; lia).
  assert (Hd0 : (0 <= d - START_AGE cfg)%Z) by lia.
  assert (Hc0 : (0 <= c - START_AGE cfg)%Z) by lia.
  rewrite lookup_insert_eq, mort_incr_spec.
  match goal with |- context [Np.index (length ?arr) _] =>
    change arr with (acMortArr (w_des w)) end.
  rewrite index_nonneg by assumption. rewrite Hoff.
  destruct (Z.ltb_spec (d - START_AGE cfg) (Z.of_nat (length (acMortArr (w_des w)))))
    as [Hin|Hout]; [|eauto].
  rewrite lookup_insert_ne by done.
  destruct (Z.leb_spec c d) as [Hcd|Hcd].
  - rewrite lookup_insert_eq, inc_incr_spec.
    match goal with |- context [Np.index (length ?arr) _] =>
      change arr with (cancerIncArr (w_des w)) end.
    rewrite index_nonneg by assumption. rewrite Hlen.
    destruct (Z.ltb_spec (c - START_AGE cfg) (Z.of_nat (length (acMortArr (w_des w)))));
      [eauto|lia].
  - rewrite lookup_singleton_ne by done. eauto.
Qed.

Lemma for_each_outcome (cfg : config) (cancer_pdf : list Q) (n j : nat) (w : world) :
  j + n <= length (patients (w_des w)) ->
  Forall (age_in_range cfg cancer_pdf) (age <$> patients (w_des w)) ->
  length (cancerIncArr (w_des w)) = length (acMortArr (w_des w)) ->
  let len := Z.of_nat (length (acMortArr (w_des w))) in
  let off k a := death_offset cfg a (tape (w_rng w) (cursor (w_rng w) + 2 * (k - j))) in
  match for_each (seq j n) (run_body cfg cancer_pdf) w with
  | (Ok _, _) =>
      forall k a, j <= k < j + n -> (age <$> patients (w_des w)) !! k = Some a ->
                  (off k a < len)%Z
  | (Raise e, _) =>
      e = IndexError /\
      exists k a, j <= k < j + n /\ (age <$> patients (w_des w)) !! k = Some a /\
                  (len <= off k a)%Z
  end.
Proof.
  revert j w. induction n as [|n IH]; intros j w Hjn Hages Hlen len off.
  - simpl. unfold ret. intros k a Hk. lia.
  - assert (Hj : j < length (age <$> patients (w_des w))) by (rewrite length_fmap; lia).
    destruct (lookup_lt_is_Some_2 _ _ Hj) as [aj Haj].
    assert (Hagej : age_in_range cfg cancer_pdf aj).
    { eapply Forall_lookup_1 in Hages; eauto. }
    pose proof (run_body_outcome cfg cancer_pdf j w aj Haj Hagej Hlen) as Hout.
    cbv zeta in Hout. simpl. unfold bind.
    destruct (Z.ltb_spec (death_offset cfg aj (tape (w_rng w) (cursor (w_rng w))))
                (Z.of_nat (length (acMortArr (w_des w))))) as [Hin|Hbeyond].
    + destruct Hout as [w1 Hw1]. rewrite Hw1.
      apply run_body_progress in Hw1
        as (_ & _ & Htape & Hcur & _ & Hages1 & Hm & Hi & _).
      specialize (IH (S j) w1).
      rewrite <- Hages1 in Hages. rewrite <- Hm, <- Hi in Hlen.
      assert (Hjn1 : S j + n <= length (patients (w_des w1))).
      { apply (f_equal length) in Hages1. rewrite !length_fmap in Hages1. lia. }
      specialize (IH Hjn1 Hages Hlen). cbv zeta in IH.
      rewrite Htape, Hcur, Hages1, Hm in IH.
      assert (Hshift : forall k, S j <= k ->
                cursor (w_rng w) + 2 * 1 + 2 * (k - S j) = cursor (w_rng w) + 2 * (k - j))
        by (intros; lia).
      destruct (for_each (seq (S j) n) (run_body cfg cancer_pdf) w1) as [[[]|e] w2].
      * intros k a Hk Hka. destruct (decide (k = j)) as [->|Hne].
        -- rewrite Hka in Haj. inversion Haj; subst.
           unfold off. replace (j - j) with 0 by lia. by rewrite Nat.mul_0_r, Nat.add_0_r.
        -- unfold off. rewrite <- Hshift by lia. apply IH; [lia|assumption].
      * destruct IH as (-> & k & a & Hk & Hka & Hoff).
        split; [reflexivity|]. exists k, a.
        split; [lia|]. split; [assumption|].
        unfold off. by rewrite <- Hshift by lia.
    + destruct Hout as [w1 Hw1]. rewrite Hw1.
      split; [reflexivity|]. exists j, aj.
      split; [lia|]. split; [assumption|].
      unfold off. replace (j - j) with 0 by lia. by rewrite Nat.mul_0_r, Nat.add_0_r.
Qed.

Lemma DES_run_unfold (cfg : config) (cancer_pdf : list Q) (w : world) :
  (0 <= n_ages cfg)%Z ->
  DES_run cfg cancer_pdf w =
    match for_each (seq 0 (length (patients (w_des w)))) (run_body cfg cancer_pdf)
            (zeroed cfg w) with
    | (Ok _, w1) => DES_normalise w1
    | (Raise e, w1) => (Raise e, w1)
    end.
Proof.
  intros Hn. unfold DES_run, DES_count, bind. rewrite DES_reset_spec.
  destruct (Z.ltb_spec (n_ages cfg) 0); [lia|].
  unfold gets.
  change (patients (w_des (zeroed cfg w))) with (patients (w_des w)).
  by destruct (for_each _ _ _) as [[[]|e] w1].
Qed.

(** C10, as the code has it.  [run] catches nothing but the KeyError of a
    missing "Cancer" entry, and what it can raise is the IndexError of the
    mortality increment.  With arrays of length [END_AGE - START_AGE + 1]
    and patients whose starting ages are in range (not below [START_AGE],
    which is not negative, and small enough for the [np.int64] sums of
    [Patient.run] not to wrap around), [run] completes exactly when every
    sampled death offset is at most [END_AGE - START_AGE], and otherwise
    raises IndexError; where the sampled onsets fall does not matter. *)
Theorem DES_run_completes_iff_deaths_in_range
    (cfg : config) (cancer_pdf : list Q) (w : world) :
  (0 <= n_ages cfg)%Z ->
  Forall (fun p => age_in_range cfg cancer_pdf (age p)) (patients (w_des w)) ->
  match DES_run cfg cancer_pdf w with
  | (Ok _, _) =>
      forall k p, patients (w_des w) !! k = Some p ->
                  (death_offset cfg (age p) (death_draw w k) <= END_AGE cfg - START_AGE cfg)%Z
  | (Raise e, _) =>
      e = IndexError /\
      exists k p, patients (w_des w) !! k = Some p /\
                  (END_AGE cfg - START_AGE cfg < death_offset cfg (age p) (death_draw w k))%Z
  end.
Proof.
  intros Hn Hages.
  rewrite DES_run_unfold by assumption.
  pose proof (for_each_outcome cfg cancer_pdf (length (patients (w_des w))) 0 (zeroed cfg w))
    as Hloop.
  cbv zeta in Hloop. cbn [zeroed w_des set_des patients acMortArr cancerIncArr w_rng] in Hloop.
  rewrite length_replicate, Z2Nat.id in Hloop by assumption.
  specialize (Hloop ltac:(lia)).
  specialize (Hloop ltac:(by apply Forall_fmap)).
  specialize (Hloop eq_refl).
  unfold n_ages in *. unfold death_draw.
  destruct (for_each _ _ _) as [[[]|e] w1].
  - unfold DES_normalise, modify_des, modify.
    intros k p Hk.
    assert (Hlt : k < length (patients (w_des w))) by (by eapply lookup_lt_Some).
    specialize (Hloop k (age p) ltac:(lia)).
    rewrite list_lookup_fmap, Hk, Nat.sub_0_r in Hloop.
    specialize (Hloop eq_refl). lia.
  - destruct Hloop as (-> & k & a & Hk & Hka & Hoff).
    split; [reflexivity|].
    rewrite list_lookup_fmap in Hka.
    destruct (patients (w_des w) !! k) as [p|] eqn:Hp; [|discriminate].
    simpl in Hka. inversion Hka; subst a.
    clear Hka. exists k, p. split; [assumption|]. rewrite Nat.sub_0_r in Hoff. lia.
Qed.

Lemma DES_run_completes_iff_deaths_in_range_witness :
  (0 <= n_ages Demo.cfg)%Z /\
  Forall (fun p => age_in_range Demo.cfg Demo.cancer_pdf (age p)) (patients (w_des Demo.w)) /\
  match DES_run Demo.cfg Demo.cancer_pdf Demo.w with
  | (Ok _, _) =>
      forall k p, patients (w_des Demo.w) !! k = Some p ->
                  (death_offset Demo.cfg (age p) (death_draw Demo.w k)
                   <= END_AGE Demo.cfg - START_AGE Demo.cfg)%Z
  | (Raise e, _) =>
      e = IndexError /\
      exists k p, patients (w_des Demo.w) !! k = Some p /\
                  (END_AGE Demo.cfg - START_AGE Demo.cfg
                   < death_offset Demo.cfg (age p) (death_draw Demo.w k))%Z
  end.
Proof.
  assert (H0 : (0 <= n_ages Demo.cfg)%Z) by discriminate.
  assert (Hages : Forall (fun p => age_in_range Demo.cfg Demo.cancer_pdf (age p))
                    (patients (w_des Demo.w))).
  { repeat constructor; discriminate. }
  split; [exact H0|]. split; [exact Hages|].
  exact (DES_run_completes_iff_deaths_in_range Demo.cfg Demo.cancer_pdf Demo.w H0 Hages).
Defined.

(** C10 with the onsets required in range fails on the small cohort run
    with a pdf of zeros: the first patient's sampled onset offset is 2,
    outside [0, 1], no patient has an onset at or before death, and [run]
    completes. *)
Lemma DES_run_completes_with_onset_beyond :
  let pdf := [0%Q; 0%Q] in
  let onset_offset :=
    (onset_age (Patient_init 0 0) pdf (Demo.draws 1) - START_AGE Demo.cfg)%Z in
  (DES_run Demo.cfg pdf Demo.w).1 = Ok tt /\
  onset_offset = 2%Z /\
  ~ (0 <= onset_offset <= END_AGE Demo.cfg - START_AGE Demo.cfg)%Z.
Proof.
  intros pdf onset_offset.
  split; [vm_compute; reflexivity|].
  split; [vm_compute; reflexivity|].
  vm_compute. intros [_ H]. apply H. reflexivity.
Qed.

(** And a draw that sends a death beyond the arrays makes [run] raise at
    the mortality increment, cancer or not. *)
Example DES_run_death_beyond :
  let cfg := mkConfig 0 1 1975 [(1#4)%Q; (1#2)%Q] in
  (DES_run cfg Demo.cancer_pdf (mkWorld Demo.des [] (mkRng (fun _ => (3#4)%Q) 0) [])).1
    = Raise IndexError.
Proof. vm_compute. reflexivity. Qed.

(** The range of the ages is needed: at the top of the 64-bit range the
    sampled onset wraps around to the bottom, counts as not later than the
    death, and its increment raises, although the only death offset is 0. *)
Example DES_run_wrapped_onset :
  let cfg := mkConfig Np.int64_max Np.int64_max 1975 [1%Q] in
  let w := mkWorld (mkDES 1 [Patient_init 0 Np.int64_max] [] [0%Q] [0%Q]) []
             (mkRng (fun _ => (1#2)%Q) 0) [] in
  onset_age (Patient_init 0 Np.int64_max) [0%Q] (1#2) = Np.int64_min /\
  death_offset cfg Np.int64_max (death_draw w 0) = 0%Z /\
  (DES_run cfg [0%Q] w).1 = Raise IndexError.
Proof. repeat split; vm_compute; reflexivity. Qed.

(** * Further properties *)

(** ** Patient and the constructor *)

(** X1.  The ages of a history returned by [Patient.run] are ordered, for
    a starting age from which the [np.int64] sums cannot wrap around (the
    age is in the 64-bit range, and so is the age plus the length of either
    table): the death age is between the starting age and the starting age
    plus the length of the mortality table, and a recorded cancer age lies
    between the starting age and the death age, and is at most the starting
    age plus the length of the pdf. *)
Theorem Patient_run_ages_ordered (cfg : config) (p : Patient) (cancer_pdf : list Q)
    (g : rng) (d : Z) :
  (Np.int64_min <= age p)%Z ->
  (age p + Z.of_nat (length (condCDF cfg)) <= Np.int64_max)%Z ->
  (age p + Z.of_nat (length cancer_pdf) <= Np.int64_max)%Z ->
  let h := history (Patient_run cfg p cancer_pdf g).1 in
  h !! "Other Death" = Some d ->
  (age p <= d <= age p + Z.of_nat (length (condCDF cfg)))%Z /\
  forall c, h !! "Cancer" = Some c ->
            (age p <= c <= d)%Z /\ (c <= age p + Z.of_nat (length cancer_pdf))%Z.
Proof.
  intros Hmin Hmaxd Hmaxc h Hd. subst h. rewrite Patient_run_history_eq in *.
  rewrite lookup_insert_eq in Hd. inversion Hd; subst d; clear Hd.
  set (d := death_age cfg p (tape g (cursor g))).
  set (c0 := onset_age p cancer_pdf (tape g (S (cursor g)))).
  assert (Hdb : (age p <= d <= age p + Z.of_nat (length (condCDF cfg)))%Z).
  { unfold d. rewrite death_age_no_wrap by assumption.
    pose proof (searchsorted_le_length (condCDF cfg) (tape g (cursor g))). lia. }
  assert (Hcb : (age p <= c0 <= age p + Z.of_nat (length cancer_pdf))%Z).
  { unfold c0. rewrite onset_age_no_wrap by assumption.
    pose proof (searchsorted_le_length (Np.cumsum cancer_pdf) (tape g (S (cursor g)))) as H.
    rewrite cumsum_length in H. lia. }
  split; [exact Hdb|].
  intros c Hc. rewrite lookup_insert_ne in Hc by done.
  destruct (Z.leb_spec c0 d) as [Hle|Hgt].
  - rewrite lookup_insert_eq in Hc. inversion Hc; subst c. lia.
  - rewrite lookup_singleton_ne in Hc by done. discriminate.
Qed.

Lemma Patient_run_ages_ordered_witness :
  let h := history (Patient_run Demo.cfg (Patient_init 0 0) Demo.cancer_pdf
                      (mkRng Demo.draws 0)).1 in
  (Np.int64_min <= 0)%Z /\
  (0 + Z.of_nat (length (condCDF Demo.cfg)) <= Np.int64_max)%Z /\
  (0 + Z.of_nat (length Demo.cancer_pdf) <= Np.int64_max)%Z /\
  h !! "Other Death" = Some 0%Z /\
  (0 <= 0 <= 0 + Z.of_nat (length (condCDF Demo.cfg)))%Z /\
  forall c, h !! "Cancer" = Some c ->
            (0 <= c <= 0)%Z /\ (c <= 0 + Z.of_nat (length Demo.cancer_pdf))%Z.
Proof.
  intros h.
  assert (H1 : (Np.int64_min <= 0)%Z) by discriminate.
  assert (H2 : (0 + Z.of_nat (length (condCDF Demo.cfg)) <= Np.int64_max)%Z) by discriminate.
  assert (H3 : (0 + Z.of_nat (length Demo.cancer_pdf) <= Np.int64_max)%Z) by discriminate.
  split; [exact H1|]. split; [exact H2|]. split; [exact H3|]. split; [reflexivity|].
  exact (Patient_run_ages_ordered Demo.cfg (Patient_init 0 0) Demo.cancer_pdf
           (mkRng Demo.draws 0) 0 H1 H2 H3 eq_refl).
Defined.

(** X2.  The constructor, when the age range gives the arrays a length,
    builds patients [0 .. num_patients - 1] in order, each at the starting
    age with a history of just "Healthy", an empty log and two arrays of
    [END_AGE - START_AGE + 1] zeros; for a [num_patients] that is not
    negative the cohort has [num_patients] patients.  With
    [END_AGE - START_AGE + 1 < 0] it raises ValueError. *)
Theorem DES_init_cohort (cfg : config) (n starting_age : Z) :
  match DES_init cfg n starting_age with
  | Ok d =>
      (0 <= n_ages cfg)%Z /\
      num_patients d = n /\
      length (patients d) = Z.to_nat n /\
      ((0 <= n)%Z -> Z.of_nat (length (patients d)) = num_patients d) /\
      (forall k p, patients d !! k = Some p ->
                   pid p = k /\ age p = starting_age /\
                   history p = {["Healthy" := starting_age]}) /\
      log d = [] /\
      cancerIncArr d = replicate (Z.to_nat (n_ages cfg)) 0%Q /\
      acMortArr d = replicate (Z.to_nat (n_ages cfg)) 0%Q
  | Raise e => e = ValueError /\ (n_ages cfg < 0)%Z
  end.
Proof.
  unfold DES_init, Np.zeros.
  destruct (Z.ltb_spec (n_ages cfg) 0) as [Hneg|Hpos]; [by split|].
  simpl. split; [assumption|]. split; [reflexivity|].
  rewrite length_fmap, length_seq.
  split; [reflexivity|]. split; [intros; lia|].
  split; [|by repeat split].
  intros k p Hk. rewrite list_lookup_fmap in Hk.
  destruct (seq 0 (Z.to_nat n) !! k) as [j|] eqn:Hj; [|discriminate].
  apply lookup_seq in Hj as [-> _]. simpl in Hk. inversion Hk; subst p.
  by repeat split.
Qed.

(** ** The temperature schedule *)





(** ** The loop of run, iteration by iteration *)

(** What one completed iteration has done. *)
Lemma run_body_effect (cfg : config) (cancer_pdf : list Q) (k : nat) (w w' : world) :
  run_body cfg cancer_pdf k w = (Ok tt, w') ->
  exists p i d,
    patients (w_des w) !! k = Some p /\
    let r := Patient_run cfg p cancer_pdf (w_rng w) in
    let h := history r.1 in
    h !! "Other Death" = Some d /\
    Np.index (length (acMortArr (w_des w))) (d - START_AGE cfg) = Some i /\
    w_rng w' = r.2 /\ w_heap w' = w_heap w /\ w_out w' = w_out w /\
    num_patients (w_des w') = num_patients (w_des w) /\
    patients (w_des w') = <[k := r.1]> (patients (w_des w)) /\
    log (w_des w') = log (w_des w) ++ [h] /\
    acMortArr (w_des w') = alter (fun x => (x + 1)%Q) i (acMortArr (w_des w)) /\
    match h !! "Cancer" with
    | None => cancerIncArr (w_des w') = cancerIncArr (w_des w)
    | Some c =>
        exists j,
          Np.index (length (cancerIncArr (w_des w))) (c - START_AGE cfg) = Some j /\
          cancerIncArr (w_des w') = alter (fun x => (x + 1)%Q) j (cancerIncArr (w_des w))
    end.
Proof.
  rewrite run_body_spec.
  destruct (patients (w_des w) !! k) as [p|] eqn:Hk; [|discriminate].
  cbv zeta.
  set (r := Patient_run cfg p cancer_pdf (w_rng w)).
  remember (history r.1) as h eqn:Hh.
  rewrite record_history_spec.
  destruct (h !! "Other Death") as [d|] eqn:Hd; [|discriminate].
  rewrite mort_incr_spec.
  match goal with |- context [Np.index (length ?arr) _] =>
    change arr with (acMortArr (w_des w)) end.
  destruct (Np.index (length (acMortArr (w_des w))) (d - START_AGE cfg)) as [i|] eqn:Hi;
    [|discriminate].
  destruct (h !! "Cancer") as [c|] eqn:Hc.
  - rewrite inc_incr_spec.
    match goal with |- context [Np.index (length ?arr) _] =>
      change arr with (cancerIncArr (w_des w)) end.
    destruct (Np.index (length (cancerIncArr (w_des w))) (c - START_AGE cfg)) as [j|] eqn:Hj;
      [|discriminate].
    intros H. inversion H; subst w'; clear H.
    exists p, i, d. split; [reflexivity|]. cbv zeta. fold r. rewrite <- Hh, Hc.
    cbn [w_des w_heap w_rng w_out set_des set_rng set_heap set_out set_log set_acMortArr
         set_cancerIncArr set_patients with_logged num_patients patients log acMortArr
         cancerIncArr].
    repeat (split; [reflexivity || assumption|]). eauto.
  - intros H. inversion H; subst w'; clear H.
    exists p, i, d. split; [reflexivity|]. cbv zeta. fold r. rewrite <- Hh, Hc.
    cbn [w_des w_heap w_rng w_out set_des set_rng set_heap set_out set_log set_acMortArr
         set_cancerIncArr set_patients with_logged num_patients patients log acMortArr
         cancerIncArr].
    repeat (split; [reflexivity || assumption|]). reflexivity.
Qed.

Lemma for_each_seq_invariant (body : nat -> M unit) (I : nat -> world -> Prop) :
  (forall k w w', I k w -> body k w = (Ok tt, w') -> I (S k) w') ->
  forall n j w w',
    I j w -> for_each (seq j n) body w = (Ok tt, w') -> I (j + n) w'.
Proof.
  intros Hstep n. induction n as [|n IH]; intros j w w' Hj Hrun; simpl in Hrun.
  - unfold ret in Hrun. inversion Hrun; subst. by rewrite Nat.add_0_r.
  - apply bind_inv_Ok in Hrun as ([] & w1 & H1 & H2).
    replace (j + S n) with (S j + n) by lia.
    eapply IH; [|exact H2]. eapply Hstep; eauto.
Qed.

(** A completed count has run the loop from the zeroed world. *)
Lemma DES_count_loop (cfg : config) (cancer_pdf : list Q) (w w1 : world) :
  DES_count cfg cancer_pdf w = (Ok tt, w1) ->
  (0 <= n_ages cfg)%Z /\
  for_each (seq 0 (length (patients (w_des w)))) (run_body cfg cancer_pdf) (zeroed cfg w)
    = (Ok tt, w1).
Proof.
  unfold DES_count. intros H.
  apply bind_inv_Ok in H as ([] & w0 & H0 & H).
  rewrite DES_reset_spec in H0.
  destruct (Z.ltb_spec (n_ages cfg) 0); [discriminate|].
  inversion H0; subst; clear H0.
  unfold bind, gets in H. simpl in H. by split.
Qed.

Lemma rng_eta (g : rng) : g = mkRng (tape g) (cursor g).
Proof. by destruct g. Qed.

(** X4.  A completed [run] leaves a log with one history per patient, in
    cohort order: entry [k] is the history [Patient.run] computes for
    patient [k] from the draws [2k] and [2k + 1] of the stream, whatever
    log and counts the simulator held before; it is the history patient [k]
    holds afterwards; and it depends on the patient only through its age,
    not through the history the patient held before. *)
Theorem DES_run_log (cfg : config) (cancer_pdf : list Q) (w w2 : world) :
  DES_run cfg cancer_pdf w = (Ok tt, w2) ->
  log (w_des w2) = expected_log cfg cancer_pdf w /\
  history <$> patients (w_des w2) = log (w_des w2) /\
  length (log (w_des w2)) = length (patients (w_des w)) /\
  forall k p q, age p = age q ->
    expected_history cfg cancer_pdf w k p = expected_history cfg cancer_pdf w k q.
Proof.
  intros Hrun.
  assert (Hindep : forall k p q, age p = age q ->
            expected_history cfg cancer_pdf w k p = expected_history cfg cancer_pdf w k q).
  { intros k p q Hage. unfold expected_history.
    rewrite !Patient_run_history_eq. unfold death_age, onset_age. by rewrite Hage. }
  destruct (DES_run_inv _ _ _ _ Hrun) as (w1 & Hcount & Hnorm).
  destruct (DES_count_loop _ _ _ _ Hcount) as (_ & Hloop).
  unfold DES_normalise, modify_des, modify in Hnorm.
  inversion Hnorm; subst w2; clear Hnorm. simpl.
  set (ps0 := patients (w_des w)) in *.
  set (EL := expected_log cfg cancer_pdf w).
  assert (HEL : forall k p, ps0 !! k = Some p ->
                  EL !! k = Some (expected_history cfg cancer_pdf w k p)).
  { intros k p Hk. unfold EL, expected_log. fold ps0.
    by rewrite list_lookup_imap, Hk. }
  assert (HELlen : length EL = length ps0).
  { unfold EL, expected_log. by rewrite length_imap. }
  pose (I := fun (k : nat) (v : world) =>
    tape (w_rng v) = tape (w_rng w) /\
    cursor (w_rng v) = cursor (w_rng w) + 2 * k /\
    length (patients (w_des v)) = length ps0 /\
    (forall j, k <= j -> patients (w_des v) !! j = ps0 !! j) /\
    log (w_des v) = take k EL /\
    (forall j, j < k -> history <$> (patients (w_des v) !! j) = EL !! j)).
  assert (Hinv : I (0 + length ps0) w1).
  { apply (for_each_seq_invariant (run_body cfg cancer_pdf) I) with (w := zeroed cfg w);
      [|by (unfold I; simpl; repeat split; (reflexivity || lia || (intros; lia)))
       |exact Hloop].
    intros k v v' (Ht & Hc & Hlen & Hrest & Hlog & Hdone) Hbody.
    apply run_body_effect in Hbody
      as (p & i & d & Hk & _ & _ & Hrng & _ & _ & _ & Hps & Hlog' & _).
    cbv zeta in *.
    assert (Hk0 : ps0 !! k = Some p) by (by rewrite <- Hrest).
    assert (Hklt : k < length (patients (w_des v))) by (by eapply lookup_lt_Some).
    assert (Hh : history (Patient_run cfg p cancer_pdf (w_rng v)).1
                 = expected_history cfg cancer_pdf w k p).
    { unfold expected_history. by rewrite (rng_eta (w_rng v)), Ht, Hc. }
    destruct (Patient_run_frame cfg p cancer_pdf (w_rng v)) as (_ & _ & Hg).
    unfold I. rewrite Hrng, Hg, Hps, Hlog', Hh. cbn [tape cursor].
    split; [assumption|]. split; [lia|].
    split; [by rewrite length_insert|].
    split; [intros j Hj; rewrite list_lookup_insert_ne by lia; apply Hrest; lia|].
    split.
    - rewrite (take_S_r EL k _ (HEL k p Hk0)). by rewrite Hlog.
    - intros j Hj. destruct (decide (j = k)) as [->|Hne].
      + rewrite list_lookup_insert_eq by assumption.
        rewrite (HEL k p Hk0). cbn [fmap option_fmap option_map]. by rewrite Hh.
      + rewrite list_lookup_insert_ne by done. apply Hdone. lia. }
  simpl in Hinv. destruct Hinv as (_ & _ & Hlen & _ & Hlog & Hdone).
  assert (Hlog' : log (w_des w1) = EL) by (rewrite Hlog; apply take_ge; lia).
  split; [exact Hlog'|]. split; [|split; [by rewrite Hlog'|exact Hindep]].
  rewrite Hlog'. apply list_eq. intros j. rewrite list_lookup_fmap.
  destruct (Nat.lt_ge_cases j (length ps0)) as [Hj|Hj]; [by apply Hdone|].
  rewrite (lookup_ge_None_2 (patients (w_des w1))) by lia.
  by rewrite (lookup_ge_None_2 EL) by lia.
Qed.

Lemma DES_run_log_witness :
  DES_run Demo.cfg Demo.cancer_pdf Demo.w = (Ok tt, Demo.ran) /\
  log (w_des Demo.ran) = expected_log Demo.cfg Demo.cancer_pdf Demo.w /\
  history <$> patients (w_des Demo.ran) = log (w_des Demo.ran) /\
  length (log (w_des Demo.ran)) = length (patients (w_des Demo.w)) /\
  forall k p q, age p = age q ->
    expected_history Demo.cfg Demo.cancer_pdf Demo.w k p
    = expected_history Demo.cfg Demo.cancer_pdf Demo.w k q.
Proof.
  split; [exact DemoRun.run_completes|].
  exact (DES_run_log Demo.cfg Demo.cancer_pdf Demo.w Demo.ran DemoRun.run_completes).
Defined.

(** ** The counts as histograms of the log *)

Lemma count_in_bin_snoc (cfg : config) (n : nat) (key : string) (a : nat)
    (l : list (gmap string Z)) (h : gmap string Z) :
  count_in_bin cfg n key a (l ++ [h]) =
  count_in_bin cfg n key a l + (if in_bin cfg n key a h then 1 else 0).
Proof.
  unfold count_in_bin. rewrite List.filter_app, length_app. simpl.
  by destruct (in_bin cfg n key a h).
Qed.

Lemma inject_nat_succ (n : nat) :
  (inject_Z (Z.of_nat (n + 1)) == inject_Z (Z.of_nat n) + 1)%Q.
Proof. rewrite Nat2Z.inj_add, inject_Z_plus. reflexivity. Qed.

Lemma agrees_alter (arr : list Q) (count count' : nat -> nat) (i : nat) :
  agrees arr count ->
  (forall a, count' a = count a + (if (i =? a)%nat then 1 else 0)) ->
  agrees (alter (fun x => (x + 1)%Q) i arr) count'.
Proof.
  intros Hag Hc a Ha. rewrite length_alter in Ha.
  destruct (Hag a Ha) as (q & Hq & Heq). rewrite Hc.
  destruct (Nat.eqb_spec i a) as [->|Hne].
  - exists (q + 1)%Q. split.
    + by rewrite list_lookup_alter_eq, Hq.
    + rewrite inject_nat_succ, Heq. reflexivity.
  - exists q. split.
    + by rewrite list_lookup_alter_ne.
    + by rewrite Nat.add_0_r.
Qed.

(** X5.  After the loop of a completed [run] the two arrays are the
    histograms of the log: the mortality count of every bin is the number
    of logged histories whose "Other Death" age indexes that bin, and the
    incidence count of every bin is the number of logged histories that
    have a "Cancer" age indexing that bin.  Both arrays have
    [END_AGE - START_AGE + 1] bins. *)
Theorem DES_count_histograms (cfg : config) (cancer_pdf : list Q) (w w1 : world) :
  DES_count cfg cancer_pdf w = (Ok tt, w1) ->
  let n := Z.to_nat (n_ages cfg) in
  length (acMortArr (w_des w1)) = n /\
  length (cancerIncArr (w_des w1)) = n /\
  forall a, a < n ->
    (exists q, acMortArr (w_des w1) !! a = Some q /\
       (q == inject_Z (Z.of_nat (count_in_bin cfg n "Other Death" a (log (w_des w1)))))%Q) /\
    (exists q, cancerIncArr (w_des w1) !! a = Some q /\
       (q == inject_Z (Z.of_nat (count_in_bin cfg n "Cancer" a (log (w_des w1)))))%Q).
Proof.
  intros Hcount n.
  destruct (DES_count_loop _ _ _ _ Hcount) as (Hn & Hloop).
  pose (I := fun (k : nat) (v : world) =>
    length (acMortArr (w_des v)) = n /\
    length (cancerIncArr (w_des v)) = n /\
    agrees (acMortArr (w_des v))
      (fun a => count_in_bin cfg n "Other Death" a (log (w_des v))) /\
    agrees (cancerIncArr (w_des v))
      (fun a => count_in_bin cfg n "Cancer" a (log (w_des v)))).
  assert (Hinv : I (0 + length (patients (w_des w))) w1).
  { apply (for_each_seq_invariant (run_body cfg cancer_pdf) I) with (w := zeroed cfg w);
      [| |exact Hloop].
    - intros k v v' (Hlm & Hli & Hm & Hi) Hbody.
      apply run_body_effect in Hbody
        as (p & i & d & _ & Hd & Hidx & _ & _ & _ & _ & _ & Hlog & Hmort & Hinc).
      cbv zeta in *.
      set (h := history (Patient_run cfg p cancer_pdf (w_rng v)).1) in *.
      unfold I. rewrite Hmort, Hlog, length_alter.
      split; [assumption|].
      assert (Hm' : agrees (alter (fun x => (x + 1)%Q) i (acMortArr (w_des v)))
                      (fun a => count_in_bin cfg n "Other Death" a (log (w_des v) ++ [h]))).
      { eapply agrees_alter; [exact Hm|]. intros a. cbv beta.
        rewrite count_in_bin_snoc. unfold in_bin. by rewrite Hd, <- Hlm, Hidx. }
      destruct (h !! "Cancer") as [c|] eqn:Hc.
      + destruct Hinc as (j & Hj & ->). rewrite length_alter.
        split; [assumption|]. split; [exact Hm'|].
        eapply agrees_alter; [exact Hi|]. intros a. cbv beta.
        rewrite count_in_bin_snoc. unfold in_bin. by rewrite Hc, <- Hli, Hj.
      + rewrite Hinc. split; [assumption|]. split; [exact Hm'|].
        intros a Ha. destruct (Hi a Ha) as (q & Hq & Heq).
        exists q. split; [assumption|].
        rewrite count_in_bin_snoc.
        replace (in_bin cfg n "Cancer" a h) with false
          by (unfold in_bin; by rewrite Hc).
        by rewrite Nat.add_0_r.
    - unfold I. simpl. rewrite length_replicate.
      split; [reflexivity|]. split; [reflexivity|].
      split; intros a Ha; rewrite length_replicate in Ha;
        (exists 0%Q; split; [by apply lookup_replicate_2|reflexivity]). }
  destruct Hinv as (Hlm & Hli & Hm & Hi).
  split; [assumption|]. split; [assumption|].
  intros a Ha. split; [apply Hm; lia|apply Hi; lia].
Qed.

Lemma DES_count_histograms_witness :
  DES_count Demo.cfg Demo.cancer_pdf Demo.w = (Ok tt, Demo.counted) /\
  let n := Z.to_nat (n_ages Demo.cfg) in
  length (acMortArr (w_des Demo.counted)) = n /\
  length (cancerIncArr (w_des Demo.counted)) = n /\
  forall a, a < n ->
    (exists q, acMortArr (w_des Demo.counted) !! a = Some q /\
       (q == inject_Z (Z.of_nat (count_in_bin Demo.cfg n "Other Death" a
                                   (log (w_des Demo.counted)))))%Q) /\
    (exists q, cancerIncArr (w_des Demo.counted) !! a = Some q /\
       (q == inject_Z (Z.of_nat (count_in_bin Demo.cfg n "Cancer" a
                                   (log (w_des Demo.counted)))))%Q).
Proof.
  split; [exact DemoRun.count_completes|].
  exact (DES_count_histograms Demo.cfg Demo.cancer_pdf Demo.w Demo.counted
           DemoRun.count_completes).
Defined.

(** ** The rates *)

Lemma DES_count_inc_nonneg (cfg : config) (cancer_pdf : list Q) (w w1 : world) :
  DES_count cfg cancer_pdf w = (Ok tt, w1) ->
  Forall (fun x => (0 <= x)%Q) (cancerIncArr (w_des w1)).
Proof.
  intros Hcount. destruct (DES_count_loop _ _ _ _ Hcount) as (_ & Hloop).
  apply (for_each_seq_invariant (run_body cfg cancer_pdf)
           (fun _ v => Forall (fun x => (0 <= x)%Q) (cancerIncArr (w_des v))))
    with (w := zeroed cfg w) (j := 0) (n := length (patients (w_des w)));
    [| |exact Hloop].
  - intros k v v' Hv Hbody.
    apply run_body_effect in Hbody
      as (p & i & d & _ & _ & _ & _ & _ & _ & _ & _ & _ & _ & Hinc).
    cbv zeta in Hinc.
    destruct (_ !! "Cancer").
    + destruct Hinc as (j & _ & ->). apply Forall_alter; [assumption|].
      intros x _ Hx. lra.
    + by rewrite Hinc.
  - simpl. apply Forall_replicate. lra.
Qed.

(** X6.  After a completed [run] on a cohort that has [num_patients]
    patients every rate is defined from a divisor of at least 1: it is not
    negative, it is at most 100000 times the incidence count of its bin,
    and it is 0 where that count is 0. *)
Theorem DES_run_rate_range (cfg : config) (cancer_pdf : list Q) (w w2 : world) :
  Z.of_nat (length (patients (w_des w))) = num_patients (w_des w) ->
  DES_run cfg cancer_pdf w = (Ok tt, w2) ->
  exists w1,
    DES_count cfg cancer_pdf w = (Ok tt, w1) /\
    forall (a : nat) (r : Q),
      cancerIncArr (w_des w2) !! a = Some r ->
      exists count,
        cancerIncArr (w_des w1) !! a = Some count /\
        (0 <= r)%Q /\ (r <= 100000 * count)%Q /\ (count == 0 -> r == 0)%Q.
Proof.
  intros Hpop Hrun.
  destruct (DES_run_inv _ _ _ _ Hrun) as (w1 & Hcount & Hnorm).
  exists w1. split; [assumption|].
  pose proof (DES_count_inc_nonneg _ _ _ _ Hcount) as Hinc.
  destruct (DES_count_inv _ _ _ _ Hcount) as (Hn & Hprog).
  destruct (zeroed_progress _ _ _ _ Hn Hprog) as (Hnum & _ & _ & Hm & _ & _ & Hnn).
  unfold DES_normalise, modify_des, modify in Hnorm.
  inversion Hnorm; subst w2; clear Hnorm. simpl.
  intros a r Hr.
  apply lookup_zip_with_Some in Hr as (count & alive & -> & Hc & Ha).
  rewrite list_lookup_fmap in Ha.
  destruct (Np.cumsum (acMortArr (w_des w1)) !! a) as [s|] eqn:Hs; [|discriminate].
  simpl in Ha. inversion Ha; subst alive; clear Ha.
  exists count. split; [assumption|].
  assert (Hc0 : (0 <= count)%Q).
  { eapply Forall_lookup_1 in Hinc; eauto. }
  assert (Halive : (0 <= inject_Z (num_patients (w_des w1)) - s)%Q).
  { pose proof (cumsum_lookup _ _ _ Hs) as Hsum.
    pose proof (sum_take_le _ (S a) Hnn) as Hle.
    rewrite Hnum, <- Hpop. lra. }
  unfold rate. set (den := (inject_Z (num_patients (w_des w1)) - s + 1)%Q).
  assert (Hden : (1 <= den)%Q) by (unfold den; lra).
  assert (Hq0 : (0 <= count / den)%Q) by (apply Qle_shift_div_l; lra).
  assert (Hq1 : (count / den <= count)%Q).
  { apply Qle_shift_div_r; [lra|].
    assert (0 <= count * (den - 1))%Q by (apply Qmult_le_0_compat; lra). lra. }
  split; [lra|]. split; [lra|].
  intros Hz. rewrite Hz. unfold Qdiv. ring.
Qed.

Lemma DES_run_rate_range_witness :
  Z.of_nat (length (patients (w_des Demo.w))) = num_patients (w_des Demo.w) /\
  DES_run Demo.cfg Demo.cancer_pdf Demo.w = (Ok tt, Demo.ran) /\
  exists w1,
    DES_count Demo.cfg Demo.cancer_pdf Demo.w = (Ok tt, w1) /\
    forall (a : nat) (r : Q),
      cancerIncArr (w_des Demo.ran) !! a = Some r ->
      exists count,
        cancerIncArr (w_des w1) !! a = Some count /\
        (0 <= r)%Q /\ (r <= 100000 * count)%Q /\ (count == 0 -> r == 0)%Q.
Proof.
  split; [reflexivity|]. split; [exact DemoRun.run_completes|].
  exact (DES_run_rate_range Demo.cfg Demo.cancer_pdf Demo.w Demo.ran eq_refl
           DemoRun.run_completes).
Defined.

(** ** What run leaves alone *)

(** X7.  A completed [run] reads exactly two draws per patient and nothing
    else of the stream, prints nothing, leaves every stored pdf array as it
    was, and keeps [num_patients] and the pid and age of every patient. *)
Theorem DES_run_frame (cfg : config) (cancer_pdf : list Q) (w w2 : world) :
  DES_run cfg cancer_pdf w = (Ok tt, w2) ->
  w_heap w2 = w_heap w /\
  w_out w2 = w_out w /\
  w_rng w2 = mkRng (tape (w_rng w))
               (cursor (w_rng w) + 2 * length (patients (w_des w))) /\
  num_patients (w_des w2) = num_patients (w_des w) /\
  (fun p => (pid p, age p)) <$> patients (w_des w2)
    = (fun p => (pid p, age p)) <$> patients (w_des w).
Proof.
  intros Hrun.
  destruct (DES_run_inv _ _ _ _ Hrun) as (w1 & Hcount & Hnorm).
  destruct (DES_count_loop _ _ _ _ Hcount) as (_ & Hloop).
  unfold DES_normalise, modify_des, modify in Hnorm.
  inversion Hnorm; subst w2; clear Hnorm.
  cbn [w_heap w_out w_rng w_des set_des set_cancerIncArr num_patients patients].
  pose (ident := fun p : Patient => (pid p, age p)).
  pose (I := fun (k : nat) (v : world) =>
    w_heap v = w_heap w /\ w_out v = w_out w /\
    w_rng v = mkRng (tape (w_rng w)) (cursor (w_rng w) + 2 * k) /\
    num_patients (w_des v) = num_patients (w_des w) /\
    ident <$> patients (w_des v) = ident <$> patients (w_des w)).
  apply (for_each_seq_invariant (run_body cfg cancer_pdf) I)
    with (w := zeroed cfg w) (j := 0) (n := length (patients (w_des w)));
    [| |exact Hloop].
  - intros k v v' (Hh & Ho & Hg & Hn & Hid) Hbody.
    apply run_body_effect in Hbody
      as (p & i & d & Hk & _ & _ & Hrng & Hheap & Hout & Hnum & Hps & _).
    cbv zeta in *.
    destruct (Patient_run_frame cfg p cancer_pdf (w_rng v)) as (Hage & Hpid & Hg').
    set (r := Patient_run cfg p cancer_pdf (w_rng v)) in *.
    unfold I. rewrite Hheap, Hout, Hnum, Hrng, Hg', Hps, Hg. cbn [tape cursor].
    repeat (split; [assumption || (f_equal; lia)|]).
    rewrite list_fmap_insert, <- Hid. apply list_insert_id.
    rewrite list_lookup_fmap, Hk. cbn [fmap option_fmap option_map].
    unfold ident. by rewrite Hage, Hpid.
  - unfold I. simpl. rewrite Nat.add_0_r. repeat split. apply rng_eta.
Qed.

Lemma DES_run_frame_witness :
  DES_run Demo.cfg Demo.cancer_pdf Demo.w = (Ok tt, Demo.ran) /\
  w_heap Demo.ran = w_heap Demo.w /\
  w_out Demo.ran = w_out Demo.w /\
  w_rng Demo.ran = mkRng (tape (w_rng Demo.w))
                     (cursor (w_rng Demo.w) + 2 * length (patients (w_des Demo.w))) /\
  num_patients (w_des Demo.ran) = num_patients (w_des Demo.w) /\
  (fun p => (pid p, age p)) <$> patients (w_des Demo.ran)
    = (fun p => (pid p, age p)) <$> patients (w_des Demo.w).
Proof.
  split; [exact DemoRun.run_completes|].
  exact (DES_run_frame Demo.cfg Demo.cancer_pdf Demo.w Demo.ran DemoRun.run_completes).
Defined.

(** ** When run cannot fail *)

Lemma demo_table_non_decreasing : non_decreasing (condCDF Demo.cfg).
Proof.
  intros i j x y Hij Hi Hj.
  destruct i as [|[|i]], j as [|[|j]]; simpl in *; try discriminate; try lia;
    inversion Hi; inversion Hj; subst; discriminate.
Qed.

(** X8.  With a mortality table in non-decreasing order whose entry at
    offset [END_AGE - START_AGE] is at least 1, patients that all start at
    [START_AGE], an age in range, and draws below 1, [run] completes,
    whatever the pdf. *)
Theorem DES_run_total (cfg : config) (cancer_pdf : list Q) (w : world) (x : Q) :
  (0 <= END_AGE cfg - START_AGE cfg)%Z ->
  non_decreasing (condCDF cfg) ->
  condCDF cfg !! Z.to_nat (END_AGE cfg - START_AGE cfg) = Some x ->
  (1 <= x)%Q ->
  Forall (fun p => age p = START_AGE cfg) (patients (w_des w)) ->
  age_in_range cfg cancer_pdf (START_AGE cfg) ->
  (forall n, (tape (w_rng w) n < 1)%Q) ->
  exists w', DES_run cfg cancer_pdf w = (Ok tt, w').
Proof.
  intros Hrange Hsorted Hlast Hx Hages Hfit Htape.
  assert (Hn : (0 <= n_ages cfg)%Z) by (unfold n_ages; lia).
  rewrite DES_run_unfold by assumption.
  pose proof (for_each_outcome cfg cancer_pdf (length (patients (w_des w))) 0 (zeroed cfg w))
    as Hloop.
  cbv zeta in Hloop. cbn [zeroed w_des set_des patients acMortArr cancerIncArr w_rng] in Hloop.
  rewrite length_replicate, Z2Nat.id in Hloop by assumption.
  specialize (Hloop ltac:(lia)).
  assert (Hge : Forall (age_in_range cfg cancer_pdf) (age <$> patients (w_des w))).
  { apply Forall_fmap. eapply Forall_impl; [exact Hages|].
    intros p Hp. unfold compose. by rewrite Hp. }
  specialize (Hloop Hge eq_refl).
  destruct (for_each _ _ _) as [[[]|e] w1].
  - unfold DES_normalise, modify_des, modify. eauto.
  - exfalso. destruct Hloop as (_ & k & a & _ & Hka & Hoff).
    rewrite list_lookup_fmap in Hka.
    destruct (patients (w_des w) !! k) as [p|] eqn:Hp; [|discriminate].
    simpl in Hka. inversion Hka; subst a; clear Hka.
    eapply Forall_lookup_1 in Hages; eauto. simpl in Hages.
    unfold death_offset, n_ages in Hoff. rewrite Hages in Hoff.
    pose proof (searchsorted_le_index (condCDF cfg)
                  (tape (w_rng w) (cursor (w_rng w) + 2 * (k - 0))) x _ Hsorted Hlast) as Hss.
    specialize (Hss ltac:(specialize (Htape (cursor (w_rng w) + 2 * (k - 0))); lra)).
    lia.
Qed.

Lemma DES_run_total_witness :
  (0 <= END_AGE Demo.cfg - START_AGE Demo.cfg)%Z /\
  non_decreasing (condCDF Demo.cfg) /\
  condCDF Demo.cfg !! Z.to_nat (END_AGE Demo.cfg - START_AGE Demo.cfg) = Some 1%Q /\
  (1 <= 1)%Q /\
  Forall (fun p => age p = START_AGE Demo.cfg) (patients (w_des Demo.w)) /\
  age_in_range Demo.cfg [0%Q; 1%Q] (START_AGE Demo.cfg) /\
  (forall n, (tape (w_rng Demo.w) n < 1)%Q) /\
  exists w', DES_run Demo.cfg [0%Q; 1%Q] Demo.w = (Ok tt, w').
Proof.
  assert (H0 : (0 <= END_AGE Demo.cfg - START_AGE Demo.cfg)%Z) by discriminate.
  assert (H1 : (1 <= 1)%Q) by discriminate.
  assert (Hages : Forall (fun p => age p = START_AGE Demo.cfg) (patients (w_des Demo.w)))
    by (repeat constructor).
  assert (Hfit : age_in_range Demo.cfg [0%Q; 1%Q] (START_AGE Demo.cfg))
    by (repeat split; discriminate).
  assert (Ht : forall n, (tape (w_rng Demo.w) n < 1)%Q)
    by (intros n; apply DemoRun.draws_uniform).
  split; [exact H0|]. split; [exact demo_table_non_decreasing|].
  split; [reflexivity|]. split; [exact H1|].
  split; [exact Hages|]. split; [exact Hfit|]. split; [exact Ht|].
  exact (DES_run_total Demo.cfg [0%Q; 1%Q] Demo.w 1 H0 demo_table_non_decreasing
           eq_refl H1 Hages Hfit Ht).
Defined.

(** ** The window of objective *)

(** X9.  The window [obs[1975 - COHORT_YEAR : 2021 - COHORT_YEAR]] never has
    more than 46 entries, so an expected curve of more than 46 entries makes
    [objective] raise ValueError.  For a cohort year up to 1975 and an
    observed curve reaching offset [2021 - COHORT_YEAR] the window has
    exactly 46 entries, entry [i] being [obs[1975 - COHORT_YEAR + i]]. *)
Theorem window_alignment (cfg : config) (obs : list Q) :
  length (window cfg obs) <= 46 /\
  (forall exp, 46 < length exp -> objective cfg obs exp = Raise ValueError) /\
  ((COHORT_YEAR cfg <= 1975)%Z ->
   (2021 - COHORT_YEAR cfg <= Z.of_nat (length obs))%Z ->
   length (window cfg obs) = 46 /\
   forall i, i < 46 ->
     window cfg obs !! i = obs !! (Z.to_nat (1975 - COHORT_YEAR cfg) + i)).
Proof.
  assert (Hlen : length (window cfg obs) <= 46).
  { unfold window, Np.slice, Np.clamp_bound.
    rewrite length_take, length_drop.
    destruct (Z.ltb_spec (1975 - COHORT_YEAR cfg) 0);
      destruct (Z.ltb_spec (2021 - COHORT_YEAR cfg) 0); lia. }
  split; [exact Hlen|]. split.
  - intros exp Hexp. apply objective_raises. left. lia.
  - intros Hcy Hobs.
    unfold window, Np.slice, Np.clamp_bound.
    destruct (Z.ltb_spec (1975 - COHORT_YEAR cfg) 0); [lia|].
    destruct (Z.ltb_spec (2021 - COHORT_YEAR cfg) 0); [lia|].
    rewrite !Z.min_l by lia.
    replace (Z.to_nat (2021 - COHORT_YEAR cfg) - Z.to_nat (1975 - COHORT_YEAR cfg))
      with 46 by lia.
    split.
    + rewrite length_take, length_drop. lia.
    + intros i Hi. by rewrite lookup_take_lt, lookup_drop.
Qed.

(** ** The mask of step at its ends *)

Lemma add_masked_none (a : list Q) (n : nat) (vals : list Q) :
  Np.add_masked a (replicate n false) vals = a.
Proof.
  revert n. induction a as [|x a IH]; intros [|n]; simpl; try reflexivity.
  by rewrite IH.
Qed.

Lemma count_true_none (n : nat) : Np.count_true (replicate n false) = 0.
Proof. induction n; simpl; lia. Qed.

Lemma select_mask_none (mask_size : Q) (draws : list Q) :
  Forall (fun u => (u <= mask_size)%Q) draws ->
  select_mask mask_size draws = replicate (length draws) false.
Proof.
  induction 1 as [|u draws Hu _ IH]; [reflexivity|].
  unfold select_mask in *. rewrite fmap_cons, IH. simpl. f_equal. by apply Qltb_ge.
Qed.

Lemma world_eta (w : world) : w = mkWorld (w_des w) (w_heap w) (w_rng w) (w_out w).
Proof. by destruct w. Qed.

(** X10.  With a [mask_size] of 1 or more and draws below 1 no position is
    selected: the perturbation stage of [step] changes no array, and reads
    only the [len(candidate)] draws of the mask. *)
Theorem step_perturb_full_mask (candidate : loc) (step_size mask_size : Q)
    (w : world) (a : list Q) :
  w_heap w !! candidate = Some a ->
  (1 <= mask_size)%Q ->
  (forall n, (tape (w_rng w) n < 1)%Q) ->
  step_perturb candidate step_size mask_size w =
    (Ok tt, set_rng (mkRng (tape (w_rng w)) (cursor (w_rng w) + length a)) w).
Proof.
  intros Ha Hm Htape.
  rewrite step_perturb_spec, Ha. cbv zeta.
  change (default [] (Some a)) with a.
  rewrite select_mask_none.
  2:{ apply Forall_fmap, Forall_forall. intros n _. unfold compose.
      specialize (Htape n). lra. }
  rewrite length_fmap, length_seq, count_true_none, add_masked_none.
  rewrite list_insert_id by assumption.
  rewrite Nat.add_0_r. unfold set_heap, set_rng. simpl.
  reflexivity.
Qed.

Lemma step_perturb_full_mask_witness :
  w_heap Demo.w !! 0 = Some Demo.cancer_pdf /\
  (1 <= 1)%Q /\
  (forall n, (tape (w_rng Demo.w) n < 1)%Q) /\
  step_perturb 0 (1#10) 1 Demo.w =
    (Ok tt, set_rng (mkRng (tape (w_rng Demo.w))
                       (cursor (w_rng Demo.w) + length Demo.cancer_pdf)) Demo.w).
Proof.
  assert (H1 : (1 <= 1)%Q) by discriminate.
  assert (Ht : forall n, (tape (w_rng Demo.w) n < 1)%Q)
    by (intros n; apply DemoRun.draws_uniform).
  split; [reflexivity|]. split; [exact H1|]. split; [exact Ht|].
  exact (step_perturb_full_mask 0 (1#10) 1 Demo.w Demo.cancer_pdf eq_refl H1 Ht).
Defined.

(** ** The calibration loop *)

Lemma evaluate_frame (cfg : config) (pdf : loc) (cancer_inc : list Q) (w w1 : world) (s : Q) :
  evaluate cfg pdf cancer_inc w = (Ok s, w1) ->
  w_heap w1 = w_heap w /\ w_out w1 = w_out w.
Proof.
  unfold evaluate. intros H.
  apply bind_inv_Ok in H as (a & w' & Ha & H).
  unfold deref, gets in Ha. inversion Ha; subst; clear Ha.
  apply bind_inv_Ok in H as ([] & w2 & Hrun & H).
  apply bind_inv_Ok in H as (obs & w3 & Hobs & H).
  unfold gets in Hobs. inversion Hobs; subst; clear Hobs.
  unfold lift in H. inversion H; subst; clear H.
  destruct (DES_run_inv _ _ _ _ Hrun) as (wc & Hcount & Hnorm).
  destruct (DES_count_inv _ _ _ _ Hcount) as (_ & Hheap & Hout & _).
  unfold DES_normalise, modify_des, modify in Hnorm.
  inversion Hnorm; subst; clear Hnorm. simpl in *. by split.
Qed.

(** What a completed proposal has done: the copy of the current point, its
    smoothed and its clipped version are appended to the store, the
    candidate is the last of them. *)
Lemma propose_effect (savgol : list Q -> nat -> Q) (cfg : config) (cancer_inc : list Q)
    (step_size mask_size : Q) (st : sa_state) (w w1 : world) (cand : loc) (e : Q) :
  propose savgol cfg cancer_inc step_size mask_size st w = (Ok (cand, e), w1) ->
  let a := default [] (w_heap w !! curr st) in
  10 <= length a /\
  cand = length (w_heap w) + 2 /\
  w_out w1 = w_out w /\
  exists a' sm,
    length a' = length a /\ length sm = length a /\
    w_heap w1 = w_heap w ++ [a'; sm; Np.clip01 <$> sm].
Proof.
  intros H a. unfold propose in H.
  apply bind_inv_Ok in H as (c & w0 & Hcopy & H).
  unfold np_copy, bind, deref, gets, alloc in Hcopy. fold a in Hcopy.
  inversion Hcopy; subst c w0; clear Hcopy.
  apply bind_inv_Ok in H as (candidate & w2 & Hstep & H).
  apply bind_inv_Ok in H as (e' & w3 & Heval & H).
  unfold ret in H. inversion H; subst candidate e' w3; clear H.
  apply evaluate_frame in Heval as (Hheap & Hout).
  unfold step in Hstep.
  apply bind_inv_Ok in Hstep as ([] & wp & Hpert & Hsc).
  rewrite step_perturb_spec in Hpert. cbv zeta in Hpert.
  cbn [w_heap set_heap w_rng] in Hpert.
  rewrite list_lookup_middle in Hpert by reflexivity.
  change (default [] (Some a)) with a in Hpert.
  match type of Hpert with context [<[_ := ?x]> _] => set (a' := x) in * end.
  assert (Ha' : length a' = length a) by apply add_masked_length.
  rewrite insert_app_r_alt in Hpert by lia.
  rewrite Nat.sub_diag in Hpert. cbn [insert list_insert] in Hpert.
  inversion Hpert; subst wp; clear Hpert.
  rewrite step_smooth_clip_spec in Hsc. cbv zeta in Hsc.
  cbn [w_heap set_heap set_rng] in Hsc.
  rewrite list_lookup_middle in Hsc by reflexivity.
  change (default [] (Some a')) with a' in Hsc.
  destruct (Nat.ltb_spec (length a') 10) as [Hshort|Hlong]; [discriminate|].
  inversion Hsc; subst cand w2; clear Hsc.
  cbn [w_heap w_out set_heap set_rng] in *.
  split; [lia|]. split; [rewrite !length_app; simpl; lia|].
  split; [assumption|].
  exists a', (savgol a' <$> seq 0 (length a')).
  split; [assumption|]. split; [by rewrite length_fmap, length_seq|].
  rewrite Hheap, <- !app_assoc. reflexivity.
Qed.

(** The decision of an iteration never raises; it keeps the store, makes
    the best score the smaller of the old best score and the candidate's,
    and moves best and current only onto the candidate. *)
Lemma settle_effect (np_exp np_log : Q -> Q) (start_temp : Q) (verbose : bool) (i : nat)
    (st : sa_state) (cand : loc) (e : Q) (w : world) :
  exists st' w',
    settle np_exp np_log start_temp verbose i st cand e w = (Ok st', w') /\
    w_heap w' = w_heap w /\
    w_out w' = w_out w ++
      (if verbose && (i mod 100 =? 0)%nat then [PrintProgress i (best_eval st')] else []) /\
    ((best st' = best st /\ best_eval st' = best_eval st /\ (best_eval st <= e)%Q) \/
     (best st' = cand /\ best_eval st' = e /\ (e < best_eval st)%Q)) /\
    ((curr st' = curr st /\ curr_eval st' = curr_eval st) \/
     (curr st' = cand /\ curr_eval st' = e)).
Proof.
  unfold settle.
  set (st1 := if Np.Qltb e (best_eval st)
              then mkSA cand e (curr st) (curr_eval st) else st).
  assert (Hbest : (best st1 = best st /\ best_eval st1 = best_eval st /\ (best_eval st <= e)%Q)
                  \/ (best st1 = cand /\ best_eval st1 = e /\ (e < best_eval st)%Q)).
  { subst st1. destruct (Np.Qltb e (best_eval st)) eqn:E.
    - right. apply Qltb_lt in E. by repeat split.
    - left. apply Qltb_ge in E. by repeat split. }
  assert (Hcurr : curr st1 = curr st /\ curr_eval st1 = curr_eval st).
  { subst st1. by destruct (Np.Qltb e (best_eval st)). }
  clearbody st1.
  set (ann := verbose && (i mod 100 =? 0)%nat).
  assert (Hacc : forall w0, exists (ok : bool) w0',
             accept np_exp (e - curr_eval st1)
               (temperature np_log start_temp i) w0 = (Ok ok, w0') /\
             w_heap w0' = w_heap w0 /\ w_out w0' = w_out w0).
  { intros w0. unfold accept. destruct (Np.Qltb (e - curr_eval st1) 0).
    - exists true, w0. by repeat split.
    - unfold bind, rand, ret. destruct (rand_rng (w_rng w0)) as [u g].
      eexists. eexists. split; [reflexivity|]. by split. }
  unfold bind.
  destruct ann.
  - unfold print, modify.
    destruct (Hacc (set_out (w_out w ++ [PrintProgress i (best_eval st1)]) w))
      as (ok & w' & -> & Hh & Ho).
    unfold ret. eexists. eexists. split; [reflexivity|].
    cbn [w_heap w_out set_out] in *.
    split; [assumption|]. rewrite Ho.
    destruct ok; cbn [best best_eval curr curr_eval]; destruct Hcurr; by auto.
  - unfold ret at 1.
    destruct (Hacc w) as (ok & w' & -> & Hh & Ho).
    unfold ret. eexists. eexists. split; [reflexivity|].
    split; [assumption|]. rewrite Ho, app_nil_r.
    destruct ok; cbn [best best_eval curr curr_eval]; destruct Hcurr; by auto.
Qed.

Lemma sa_loop_invariant (np_exp np_log : Q -> Q) (savgol : list Q -> nat -> Q)
    (cfg : config) (cancer_inc : list Q) (start_temp step_size mask_size : Q)
    (verbose : bool) (I : sa_state -> world -> Prop) (range : list nat) :
  (forall i st w st' w',
     i ∈ range -> I st w ->
     sa_iteration np_exp np_log savgol cfg cancer_inc start_temp step_size mask_size
       verbose st i w = (Ok st', w') ->
     I st' w') ->
  forall st w st' w',
    I st w ->
    sa_loop np_exp np_log savgol cfg cancer_inc start_temp step_size mask_size
      verbose range st w = (Ok st', w') ->
    I st' w'.
Proof.
  induction range as [|i range IH]; intros Hstep st w st' w' Hst Hrun; simpl in Hrun.
  - unfold ret in Hrun. by inversion Hrun; subst.
  - apply bind_inv_Ok in Hrun as (st1 & w1 & H1 & H2).
    eapply IH; [|eapply Hstep; [|exact Hst|exact H1]; by left|exact H2].
    intros j s v s' v' Hj. apply Hstep. by right.
Qed.

(** A completed call has copied, evaluated, looped and printed. *)
Lemma simulated_annealing_inv (np_exp np_log : Q -> Q) (savgol : list Q -> nat -> Q)
    (cfg : config) (cancer_pdf : loc) (cancer_inc : list Q) (n_iterations : Z)
    (start_temp step_size mask_size : Q) (verbose : bool) (w w' : world) (result : loc) :
  simulated_annealing np_exp np_log savgol cfg cancer_pdf cancer_inc n_iterations
    start_temp step_size mask_size verbose w = (Ok result, w') ->
  let initial := default [] (w_heap w !! cancer_pdf) in
  let copy := length (w_heap w) in
  exists s0 w0 st wl,
    evaluate cfg copy cancer_inc (set_heap (w_heap w ++ [initial]) w) = (Ok s0, w0) /\
    sa_loop np_exp np_log savgol cfg cancer_inc start_temp step_size mask_size verbose
      (seq 0 (Z.to_nat n_iterations)) (mkSA copy s0 copy s0) w0 = (Ok st, wl) /\
    result = best st /\
    w' = set_out (w_out wl ++ [PrintScore (best_eval st)]) wl.
Proof.
  intros H initial copy. unfold simulated_annealing in H.
  apply bind_inv_Ok in H as (c & wc & Hcopy & H).
  unfold np_copy, bind, deref, gets, alloc in Hcopy.
  inversion Hcopy; subst c wc; clear Hcopy.
  apply bind_inv_Ok in H as (s0 & w0 & Heval & H).
  apply bind_inv_Ok in H as (st & wl & Hloop & H).
  unfold bind, print, modify, ret in H. inversion H; subst; clear H.
  exists s0, w0, st, wl. by repeat split.
Qed.

Lemma clip01_all (sm : list Q) :
  Forall (fun x => (0 <= x)%Q /\ (x <= 1)%Q) (Np.clip01 <$> sm).
Proof. apply Forall_fmap, Forall_forall. intros x _. apply clip01_range. Qed.

(** X11.  A completed [simulated_annealing] changes no array the store held
    at the call, the caller's initial pdf included: every perturbation is
    made on a copy.  When the initial pdf has its entries in [0, 1], the
    returned array is one allocated by the call, has the length of the
    initial pdf and has its entries in [0, 1]. *)
Theorem simulated_annealing_store
    (np_exp np_log : Q -> Q) (savgol : list Q -> nat -> Q) (cfg : config)
    (cancer_pdf : loc) (cancer_inc : list Q) (n_iterations : Z)
    (start_temp step_size mask_size : Q) (verbose : bool) (w w' : world)
    (initial : list Q) (result : loc) :
  w_heap w !! cancer_pdf = Some initial ->
  Forall (fun x => (0 <= x)%Q /\ (x <= 1)%Q) initial ->
  simulated_annealing np_exp np_log savgol cfg cancer_pdf cancer_inc n_iterations
    start_temp step_size mask_size verbose w = (Ok result, w') ->
  (forall l a, w_heap w !! l = Some a -> w_heap w' !! l = Some a) /\
  length (w_heap w) <= result /\
  holds_pdf (length initial) w' result.
Proof.
  intros Hpdf Hrange Hsa.
  apply simulated_annealing_inv in Hsa as (s0 & w0 & st & wl & Heval & Hloop & -> & ->).
  rewrite Hpdf in Heval. change (default [] (Some initial)) with initial in *.
  apply evaluate_frame in Heval as (Hheap0 & _). cbn [w_heap set_heap] in Hheap0.
  set (n := length initial).
  pose (I := fun (s : sa_state) (v : world) =>
    (forall l a, w_heap w !! l = Some a -> w_heap v !! l = Some a) /\
    (length (w_heap w) <= best s /\ holds_pdf n v (best s)) /\
    (length (w_heap w) <= curr s /\ holds_pdf n v (curr s))).
  assert (Hinv : I st wl).
  { eapply (sa_loop_invariant np_exp np_log savgol cfg cancer_inc start_temp step_size
              mask_size verbose I); [| |exact Hloop].
    - intros i s v s' v' _ (Hext & (Hbl & Hb) & (Hcl & Hc)) Hiter.
      unfold sa_iteration in Hiter.
      apply bind_inv_Ok in Hiter as ([cand e] & v1 & Hprop & Hsettle).
      apply propose_effect in Hprop as (_ & Hcand & _ & a' & sm & _ & Hsm & Hheap1).
      cbv zeta in Hsm. destruct Hc as (bc & Hbc & Hbclen & Hbcin).
      rewrite Hbc in Hsm. change (default [] (Some bc)) with bc in Hsm.
      destruct (settle_effect np_exp np_log start_temp verbose i s cand e v1)
        as (s2 & v2 & Hs2 & Hheap2 & _ & Hbest & Hcurr).
      cbn [fst snd] in Hsettle. rewrite Hsettle in Hs2.
      inversion Hs2; subst s2 v2; clear Hs2.
      assert (Hmono : forall l a, w_heap v !! l = Some a -> w_heap v' !! l = Some a).
      { intros l a Hl. rewrite Hheap2, Hheap1. by apply lookup_app_l_Some. }
      assert (Hkeep : forall l, holds_pdf n v l -> holds_pdf n v' l).
      { intros l (b & Hl & Hlen & Hin). exists b. auto. }
      assert (Hnew : length (w_heap w) <= cand /\ holds_pdf n v' cand).
      { split.
        - assert (length (w_heap w) <= length (w_heap v)); [|lia].
          destruct (lookup_lt_is_Some_2 (w_heap w) (length (w_heap w) - 1)) as [x Hx].
          + apply lookup_lt_Some in Hpdf. lia.
          + apply Hext, lookup_lt_Some in Hx. lia.
        - exists (Np.clip01 <$> sm). rewrite Hheap2, Hheap1, Hcand.
          split; [|split; [rewrite length_fmap; lia|apply clip01_all]].
          rewrite lookup_app_r by lia.
          replace (length (w_heap v) + 2 - length (w_heap v)) with 2 by lia.
          reflexivity. }
      unfold I. split; [auto|]. split.
      + destruct Hbest as [(-> & _)|(-> & _)]; [|exact Hnew].
        split; [assumption|]. by apply Hkeep.
      + destruct Hcurr as [(-> & _)|(-> & _)]; [|exact Hnew].
        split; [assumption|]. apply Hkeep. exists bc. auto.
    - assert (Hcopy : length (w_heap w) <= length (w_heap w)
                      /\ holds_pdf n w0 (length (w_heap w))).
      { split; [lia|]. exists initial. rewrite Hheap0.
        split; [by apply list_lookup_middle|]. by split. }
      unfold I. cbn [best curr]. split; [|by split].
      intros l a Hl. rewrite Hheap0. by apply lookup_app_l_Some. }
  destruct Hinv as (Hext & (Hbl & Hb) & _).
  cbn [w_heap set_out]. split; [exact Hext|]. split; [exact Hbl|exact Hb].
Qed.

(** X12.  The score a completed [simulated_annealing] prints last is at
    most the score of the one evaluation made before the loop: the best
    point is replaced only by a candidate that scores strictly lower. *)
Theorem simulated_annealing_best_score
    (np_exp np_log : Q -> Q) (savgol : list Q -> nat -> Q) (cfg : config)
    (cancer_pdf : loc) (cancer_inc : list Q) (n_iterations : Z)
    (start_temp step_size mask_size : Q) (verbose : bool) (w w' : world)
    (result : loc) :
  simulated_annealing np_exp np_log savgol cfg cancer_pdf cancer_inc n_iterations
    start_temp step_size mask_size verbose w = (Ok result, w') ->
  exists s0 w0 s,
    evaluate cfg (length (w_heap w)) cancer_inc
      (set_heap (w_heap w ++ [default [] (w_heap w !! cancer_pdf)]) w) = (Ok s0, w0) /\
    last (w_out w') = Some (PrintScore s) /\
    (s <= s0)%Q.
Proof.
  intros Hsa.
  apply simulated_annealing_inv in Hsa as (s0 & w0 & st & wl & Heval & Hloop & -> & ->).
  exists s0, w0, (best_eval st).
  split; [exact Heval|]. split; [cbn [w_out set_out]; apply last_snoc|].
  apply (sa_loop_invariant np_exp np_log savgol cfg cancer_inc start_temp step_size
           mask_size verbose (fun s _ => (best_eval s <= s0)%Q)
           (seq 0 (Z.to_nat n_iterations)))
    with (st := mkSA (length (w_heap w)) s0 (length (w_heap w)) s0) (w := w0) (w' := wl);
    [| cbn [best_eval]; lra | exact Hloop].
  intros i s v s' v' _ Hs Hiter.
  unfold sa_iteration in Hiter.
  apply bind_inv_Ok in Hiter as ([cand e] & v1 & _ & Hsettle).
  destruct (settle_effect np_exp np_log start_temp verbose i s cand e v1)
    as (s2 & v2 & Hs2 & _ & _ & Hbest & _).
  cbn [fst snd] in Hsettle. rewrite Hsettle in Hs2.
  inversion Hs2; subst s2 v2; clear Hs2.
  destruct Hbest as [(_ & -> & _)|(_ & -> & Hlt)]; lra.
Qed.

(** X13.  What a completed [simulated_annealing] prints is a run of
    progress lines followed by the final score and nothing else; every
    progress line belongs to an iteration [i < n_iterations] with [i] a
    multiple of 100, and with [verbose] off there is none. *)
Theorem simulated_annealing_output
    (np_exp np_log : Q -> Q) (savgol : list Q -> nat -> Q) (cfg : config)
    (cancer_pdf : loc) (cancer_inc : list Q) (n_iterations : Z)
    (start_temp step_size mask_size : Q) (verbose : bool) (w w' : world)
    (result : loc) :
  simulated_annealing np_exp np_log savgol cfg cancer_pdf cancer_inc n_iterations
    start_temp step_size mask_size verbose w = (Ok result, w') ->
  exists evs s,
    w_out w' = w_out w ++ evs ++ [PrintScore s] /\
    Forall (is_progress n_iterations) evs /\
    (verbose = false -> evs = []).
Proof.
  intros Hsa.
  apply simulated_annealing_inv in Hsa as (s0 & w0 & st & wl & Heval & Hloop & -> & ->).
  apply evaluate_frame in Heval as (_ & Hout0). cbn [w_out set_heap] in Hout0.
  pose (I := fun (_ : sa_state) (v : world) =>
    exists evs, w_out v = w_out w ++ evs /\
                Forall (is_progress n_iterations) evs /\
                (verbose = false -> evs = [])).
  assert (Hinv : I st wl).
  { eapply (sa_loop_invariant np_exp np_log savgol cfg cancer_inc start_temp step_size
              mask_size verbose I); [| |exact Hloop].
    - intros i s v s' v' Hi (evs & Hevs & Hall & Hoff) Hiter.
      apply elem_of_seq in Hi.
      unfold sa_iteration in Hiter.
      apply bind_inv_Ok in Hiter as ([cand e] & v1 & Hprop & Hsettle).
      apply propose_effect in Hprop as (_ & _ & Hout1 & _).
      destruct (settle_effect np_exp np_log start_temp verbose i s cand e v1)
        as (s2 & v2 & Hs2 & _ & Hout2 & _).
      cbn [fst snd] in Hsettle. rewrite Hsettle in Hs2.
      inversion Hs2; subst s2 v2; clear Hs2.
      rewrite Hout1, Hevs in Hout2.
      destruct verbose; cbn [andb] in Hout2.
      + destruct (Nat.eqb_spec (i mod 100) 0) as [Hmod|Hmod].
        * exists (evs ++ [PrintProgress i (best_eval s')]).
          split; [by rewrite Hout2, app_assoc|]. split; [|discriminate].
          apply Forall_app. split; [assumption|].
          constructor; [|constructor]. simpl. split; [assumption|lia].
        * exists evs. split; [by rewrite Hout2, app_nil_r|]. by split.
      + exists evs. split; [by rewrite Hout2, app_nil_r|]. by split.
    - exists []. rewrite Hout0, app_nil_r. by repeat split. }
  destruct Hinv as (evs & Hevs & Hall & Hoff).
  exists evs, (best_eval st). cbn [w_out set_out].
  split; [by rewrite Hevs, app_assoc|]. by split.
Qed.

(** The calibration of two iterations completes. *)
Lemma calibration2_completes :
  Calibration2.sa = (Ok Calibration2.annealed, Calibration2.sa.2).
Proof. vm_compute. reflexivity. Qed.

Lemma pdf10_in_range : Forall (fun x => (0 <= x)%Q /\ (x <= 1)%Q) Demo.pdf10.
Proof. apply Forall_replicate. split; discriminate. Qed.

Lemma simulated_annealing_store_witness :
  w_heap Demo.w10 !! 0 = Some Demo.pdf10 /\
  Forall (fun x => (0 <= x)%Q /\ (x <= 1)%Q) Demo.pdf10 /\
  Calibration2.sa = (Ok Calibration2.annealed, Calibration2.sa.2) /\
  (forall l a, w_heap Demo.w10 !! l = Some a -> w_heap Calibration2.sa.2 !! l = Some a) /\
  length (w_heap Demo.w10) <= Calibration2.annealed /\
  holds_pdf (length Demo.pdf10) Calibration2.sa.2 Calibration2.annealed.
Proof.
  split; [reflexivity|]. split; [exact pdf10_in_range|].
  split; [exact calibration2_completes|].
  exact (simulated_annealing_store Demo.exp_approx Demo.log_approx Demo.smooth3 Demo.cfg
           0 Demo.cancer_inc 2 1 (1#10) (1#5) true Demo.w10 Calibration2.sa.2
           Demo.pdf10 Calibration2.annealed eq_refl pdf10_in_range calibration2_completes).
Defined.

Lemma simulated_annealing_best_score_witness :
  Calibration2.sa = (Ok Calibration2.annealed, Calibration2.sa.2) /\
  exists s0 w0 s,
    evaluate Demo.cfg (length (w_heap Demo.w10)) Demo.cancer_inc
      (set_heap (w_heap Demo.w10 ++ [default [] (w_heap Demo.w10 !! 0)]) Demo.w10)
      = (Ok s0, w0) /\
    last (w_out Calibration2.sa.2) = Some (PrintScore s) /\
    (s <= s0)%Q.
Proof.
  split; [exact calibration2_completes|].
  exact (simulated_annealing_best_score Demo.exp_approx Demo.log_approx Demo.smooth3
           Demo.cfg 0 Demo.cancer_inc 2 1 (1#10) (1#5) true Demo.w10 Calibration2.sa.2
           Calibration2.annealed calibration2_completes).
Defined.

Lemma simulated_annealing_output_witness :
  Calibration2.sa = (Ok Calibration2.annealed, Calibration2.sa.2) /\
  exists evs s,
    w_out Calibration2.sa.2 = w_out Demo.w10 ++ evs ++ [PrintScore s] /\
    Forall (is_progress 2) evs /\
    (true = false -> evs = []).
Proof.
  split; [exact calibration2_completes|].
  exact (simulated_annealing_output Demo.exp_approx Demo.log_approx Demo.smooth3
           Demo.cfg 0 Demo.cancer_inc 2 1 (1#10) (1#5) true Demo.w10 Calibration2.sa.2
           Calibration2.annealed calibration2_completes).
Defined.

(** X14.  Over any completed run of iterations the best score never goes
    up and, once it is at most the current score, it stays at most the
    current score: accepting a worse candidate moves the current point
    only. *)
Theorem sa_loop_best_tracks
    (np_exp np_log : Q -> Q) (savgol : list Q -> nat -> Q) (cfg : config)
    (cancer_inc : list Q) (start_temp step_size mask_size : Q) (verbose : bool)
    (range : list nat) (st st' : sa_state) (w w' : world) :
  (best_eval st <= curr_eval st)%Q ->
  sa_loop np_exp np_log savgol cfg cancer_inc start_temp step_size mask_size
    verbose range st w = (Ok st', w') ->
  (best_eval st' <= best_eval st)%Q /\ (best_eval st' <= curr_eval st')%Q.
Proof.
  intros Hstart Hloop.
  apply (sa_loop_invariant np_exp np_log savgol cfg cancer_inc start_temp step_size
           mask_size verbose
           (fun s _ => (best_eval s <= best_eval st)%Q /\ (best_eval s <= curr_eval s)%Q)
           range)
    with (st := st) (w := w) (w' := w'); [|split; lra|exact Hloop].
  intros i s v s' v' _ (Hs & Hc) Hiter.
  unfold sa_iteration in Hiter.
  apply bind_inv_Ok in Hiter as ([cand e] & v1 & _ & Hsettle).
  destruct (settle_effect np_exp np_log start_temp verbose i s cand e v1)
    as (s2 & v2 & Hs2 & _ & _ & Hbest & Hcurr).
  cbn [fst snd] in Hsettle. rewrite Hsettle in Hs2.
  inversion Hs2; subst s2 v2; clear Hs2.
  destruct Hbest as [(_ & -> & Hbe)|(_ & -> & Hbe)];
    destruct Hcurr as [(_ & ->)|(_ & ->)]; split; lra.
Qed.

Lemma sa_loop_best_tracks_witness :
  let st0 := mkSA 0 0 0 0 in
  (best_eval st0 <= curr_eval st0)%Q /\
  Calibration2.looped = (Ok Calibration2.looped_state, Calibration2.looped.2) /\
  (best_eval Calibration2.looped_state <= best_eval st0)%Q /\
  (best_eval Calibration2.looped_state <= curr_eval Calibration2.looped_state)%Q.
Proof.
  intros st0.
  assert (H0 : (best_eval st0 <= curr_eval st0)%Q) by discriminate.
  assert (Hl : Calibration2.looped
               = (Ok Calibration2.looped_state, Calibration2.looped.2))
    by (vm_compute; reflexivity).
  split; [exact H0|]. split; [exact Hl|].
  exact (sa_loop_best_tracks Demo.exp_approx Demo.log_approx Demo.smooth3 Demo.cfg
           Demo.cancer_inc 1 (1#10) (1#5) true [0; 1] st0
           Calibration2.looped_state Demo.w10 Calibration2.looped.2 H0 Hl).
Defined.

(** ** Offsets below zero *)

(** X15.  An offset below zero does not raise: for a patient whose death
    age lies before [START_AGE] by at most the length of the array, the
    mortality increment counts from the end of the array (numpy's negative
    index), and the history is aggregated as any other. *)
Theorem record_history_negative_offset (cfg : config) (h : gmap string Z) (w : world)
    (d : Z) :
  h !! "Cancer" = None ->
  h !! "Other Death" = Some d ->
  let n := Z.of_nat (length (acMortArr (w_des w))) in
  (- n <= d - START_AGE cfg < 0)%Z ->
  exists w',
    record_history cfg h w = (Ok tt, w') /\
    log (w_des w') = log (w_des w) ++ [h] /\
    acMortArr (w_des w') =
      alter (fun x => (x + 1)%Q) (Z.to_nat (n + (d - START_AGE cfg)))
        (acMortArr (w_des w)) /\
    (Z.to_nat (n + (d - START_AGE cfg)) < length (acMortArr (w_des w)))%nat.
Proof.
  intros Hc Hd n Hneg.
  rewrite record_history_spec, Hd, mort_incr_spec, Hc.
  change (acMortArr (w_des (with_logged h w))) with (acMortArr (w_des w)).
  unfold Np.index. fold n.
  destruct (Z.leb_spec 0 (d - START_AGE cfg)); [lia|]. cbn [andb].
  destruct (Z.leb_spec (- n) (d - START_AGE cfg)); [|lia].
  destruct (Z.ltb_spec (d - START_AGE cfg) 0); [|lia]. cbn [andb].
  eexists. split; [reflexivity|]. cbn [w_des set_des set_acMortArr with_logged set_log log acMortArr].
  split; [reflexivity|]. split; [by rewrite Z.add_comm|]. lia.
Qed.

Lemma record_history_negative_offset_witness :
  let cfg := mkConfig 5 6 1975 [(1#4)%Q; 1%Q] in
  let h : gmap string Z := {["Healthy" := 3%Z; "Other Death" := 4%Z]} in
  h !! "Cancer" = None /\
  h !! "Other Death" = Some 4%Z /\
  (- Z.of_nat (length (acMortArr (w_des Demo.w))) <= 4 - START_AGE cfg < 0)%Z /\
  exists w',
    record_history cfg h Demo.w = (Ok tt, w') /\
    log (w_des w') = log (w_des Demo.w) ++ [h] /\
    acMortArr (w_des w') =
      alter (fun x => (x + 1)%Q)
        (Z.to_nat (Z.of_nat (length (acMortArr (w_des Demo.w))) + (4 - START_AGE cfg)))
        (acMortArr (w_des Demo.w)) /\
    (Z.to_nat (Z.of_nat (length (acMortArr (w_des Demo.w))) + (4 - START_AGE cfg))
     < length (acMortArr (w_des Demo.w)))%nat.
Proof.
  intros cfg h.
  assert (Hneg : (- Z.of_nat (length (acMortArr (w_des Demo.w)))
                  <= 4 - START_AGE cfg < 0)%Z) by (split; [discriminate|reflexivity]).
  split; [reflexivity|]. split; [reflexivity|]. split; [exact Hneg|].
  exact (record_history_negative_offset cfg h Demo.w 4 eq_refl eq_refl Hneg).
Defined.

(** ** What step does to the store *)

Lemma clip01_cases (y : Q) :
  ((y < 0)%Q -> Np.clip01 y = 0%Q) /\
  ((1 < y)%Q -> Np.clip01 y = 1%Q) /\
  ((0 <= y)%Q -> (y <= 1)%Q -> Np.clip01 y = y).
Proof.
  unfold Np.clip01.
  destruct (Np.Qltb y 0) eqn:E0; [apply Qltb_lt in E0|apply Qltb_ge in E0];
    (destruct (Np.Qltb 1 y) eqn:E1; [apply Qltb_lt in E1|apply Qltb_ge in E1]);
    repeat split; intros; try reflexivity; lra.
Qed.

(** X16.  What a completed [step] does to the store, array by array.  The
    array it is given is overwritten in place: a position whose mask draw
    is above [mask_size] holds its old value plus
    [-step_size + 2 * step_size * u], [u] being the draw at the position's
    rank after the mask draws, and every other position holds its old
    value.  Two arrays are appended: the filter's value at every position of
    the overwritten array, and that array with every entry below 0 replaced
    by 0 and every entry above 1 by 1; the location of the latter is
    returned.  The random stream has advanced by the length of the array
    plus the number of selected positions; every other array, the
    simulator and the output are left as they were. *)
Theorem step_store (savgol : list Q -> nat -> Q) (candidate : loc)
    (step_size mask_size : Q) (w w' : world) (a : list Q) (l' : loc) :
  w_heap w !! candidate = Some a ->
  step savgol candidate step_size mask_size w = (Ok l', w') ->
  exists a' sm out,
    w_heap w' = <[candidate := a']> (w_heap w) ++ [sm; out] /\
    l' = S (length (w_heap w)) /\
    length a' = length a /\
    (forall (i : nat) (x : Q),
       a !! i = Some x ->
       let u := tape (w_rng w) (cursor (w_rng w) + length a + rank mask_size w i) in
       exists y, a' !! i = Some y /\
         ((mask_size < mask_draw w i)%Q ->
            (y == x + (- step_size + 2 * step_size * u))%Q) /\
         (~ (mask_size < mask_draw w i)%Q -> y = x)) /\
    length sm = length a /\
    (forall i, i < length a -> sm !! i = Some (savgol a' i)) /\
    length out = length a /\
    (forall (i : nat) (y : Q),
       sm !! i = Some y ->
       exists z, out !! i = Some z /\
         ((y < 0)%Q -> z = 0%Q) /\ ((1 < y)%Q -> z = 1%Q) /\
         ((0 <= y)%Q -> (y <= 1)%Q -> z = y)) /\
    tape (w_rng w') = tape (w_rng w) /\
    cursor (w_rng w') = cursor (w_rng w) + length a + rank mask_size w (length a) /\
    (forall l, l <> candidate -> l < length (w_heap w) ->
               w_heap w' !! l = w_heap w !! l) /\
    w_out w' = w_out w /\ w_des w' = w_des w.
Proof.
  intros Ha Hstep. unfold step in Hstep.
  apply bind_inv_Ok in Hstep as ([] & wp & Hpert & Hsc).
  rewrite step_perturb_spec, Ha in Hpert. cbv zeta in Hpert.
  change (default [] (Some a)) with a in Hpert.
  rewrite select_mask_by_index in Hpert.
  match type of Hpert with context [<[_ := ?x]> _] => set (a' := x) in * end.
  assert (Ha' : length a' = length a) by apply add_masked_length.
  inversion Hpert; subst wp; clear Hpert.
  assert (Hlt : candidate < length (w_heap w)) by (by eapply lookup_lt_Some).
  rewrite step_smooth_clip_spec in Hsc. cbv zeta in Hsc.
  cbn [w_heap set_heap set_rng] in Hsc.
  rewrite list_lookup_insert_eq in Hsc by assumption.
  change (default [] (Some a')) with a' in Hsc.
  destruct (Nat.ltb_spec (length a') 10) as [Hshort|Hlong]; [discriminate|].
  inversion Hsc; subst l' w'; clear Hsc.
  cbn [w_heap w_out w_des w_rng set_heap set_rng tape cursor].
  set (sm := savgol a' <$> seq 0 (length a')).
  exists a', sm, (Np.clip01 <$> sm).
  split; [by rewrite <- app_assoc|].
  split; [rewrite length_app, length_insert; simpl; lia|].
  split; [assumption|].
  split.
  { intros i x Hi. exact (perturbed_entries step_size mask_size w a i x Hi). }
  split; [unfold sm; by rewrite length_fmap, length_seq|].
  split.
  { intros i Hi. unfold sm. rewrite list_lookup_fmap, lookup_seq_lt by lia. reflexivity. }
  split; [unfold sm; by rewrite !length_fmap, length_seq|].
  split.
  { intros i y Hy. exists (Np.clip01 y). split; [by rewrite list_lookup_fmap, Hy|].
    apply clip01_cases. }
  split; [reflexivity|]. split; [reflexivity|].
  split; [|by split].
  intros l Hne Hl.
  rewrite !lookup_app_l by (rewrite ?length_app, length_insert; lia).
  by apply list_lookup_insert_ne.
Qed.

Lemma step_store_witness :
  let step_size := (1#10)%Q in
  let mask_size := (1#5)%Q in
  let w' := (step Demo.smooth3 0 step_size mask_size Demo.w10).2 in
  w_heap Demo.w10 !! 0 = Some Demo.pdf10 /\
  step Demo.smooth3 0 step_size mask_size Demo.w10 = (Ok 2, w') /\
  exists a' sm out,
    w_heap w' = <[0 := a']> (w_heap Demo.w10) ++ [sm; out] /\
    2 = S (length (w_heap Demo.w10)) /\
    length a' = length Demo.pdf10 /\
    (forall (i : nat) (x : Q),
       Demo.pdf10 !! i = Some x ->
       let u := tape (w_rng Demo.w10)
                  (cursor (w_rng Demo.w10) + length Demo.pdf10 + rank mask_size Demo.w10 i) in
       exists y, a' !! i = Some y /\
         ((mask_size < mask_draw Demo.w10 i)%Q ->
            (y == x + (- step_size + 2 * step_size * u))%Q) /\
         (~ (mask_size < mask_draw Demo.w10 i)%Q -> y = x)) /\
    length sm = length Demo.pdf10 /\
    (forall i, i < length Demo.pdf10 -> sm !! i = Some (Demo.smooth3 a' i)) /\
    length out = length Demo.pdf10 /\
    (forall (i : nat) (y : Q),
       sm !! i = Some y ->
       exists z, out !! i = Some z /\
         ((y < 0)%Q -> z = 0%Q) /\ ((1 < y)%Q -> z = 1%Q) /\
         ((0 <= y)%Q -> (y <= 1)%Q -> z = y)) /\
    tape (w_rng w') = tape (w_rng Demo.w10) /\
    cursor (w_rng w')
      = cursor (w_rng Demo.w10) + length Demo.pdf10
        + rank mask_size Demo.w10 (length Demo.pdf10) /\
    (forall l, l <> 0 -> l < length (w_heap Demo.w10) ->
               w_heap w' !! l = w_heap Demo.w10 !! l) /\
    w_out w' = w_out Demo.w10 /\ w_des w' = w_des Demo.w10.
Proof.
  intros step_size mask_size w'.
  assert (Hs : step Demo.smooth3 0 step_size mask_size Demo.w10 = (Ok 2, w'))
    by (vm_compute; reflexivity).
  split; [reflexivity|]. split; [exact Hs|].
  exact (step_store Demo.smooth3 0 step_size mask_size Demo.w10 w' Demo.pdf10 2 eq_refl Hs).
Defined.

(** ** A pdf of zeros *)

Lemma cumsum_from_zeros (acc : Q) (l : list Q) :
  (acc == 0)%Q -> Forall (fun x => (x == 0)%Q) l ->
  Forall (fun x => (x == 0)%Q) (Np.cumsum_from acc l).
Proof.
  intros Hacc Hl. revert acc Hacc.
  induction Hl as [|x l Hx _ IH]; intros acc Hacc; simpl; constructor.
  - lra.
  - apply IH. lra.
Qed.

Lemma cumsum_zeros (l : list Q) :
  Forall (fun x => (x == 0)%Q) l -> Forall (fun x => (x == 0)%Q) (Np.cumsum l).
Proof.
  intros Hl. destruct Hl as [|x l Hx Hl]; simpl; constructor; [assumption|].
  by apply cumsum_from_zeros.
Qed.

(** X17.  With a pdf of zeros a positive onset draw puts the sampled onset
    at offset [len(pdf)], past every bin of the pdf; with a mortality table
    in non-decreasing order, a patient whose death draw is covered by an
    entry of the table at an offset below [len(pdf)] then gets no "Cancer"
    entry.  The starting age is one from which the [np.int64] sums cannot
    wrap around. *)
Theorem Patient_run_zero_pdf (cfg : config) (p : Patient) (cancer_pdf : list Q)
    (g : rng) (i : nat) (x : Q) :
  non_decreasing (condCDF cfg) ->
  (Np.int64_min <= age p)%Z ->
  (age p + Z.of_nat (length (condCDF cfg)) <= Np.int64_max)%Z ->
  (age p + Z.of_nat (length cancer_pdf) <= Np.int64_max)%Z ->
  Forall (fun q => (q == 0)%Q) cancer_pdf ->
  (0 < tape g (S (cursor g)))%Q ->
  condCDF cfg !! i = Some x ->
  (tape g (cursor g) <= x)%Q ->
  i < length cancer_pdf ->
  onset_age p cancer_pdf (tape g (S (cursor g))) = (Z.of_nat (length cancer_pdf) + age p)%Z /\
  history (Patient_run cfg p cancer_pdf g).1 !! "Cancer" = None.
Proof.
  intros Hsorted Hmin Hmaxd Hmaxc Hz Hu Hi Hx Hlen.
  assert (Honset : onset_age p cancer_pdf (tape g (S (cursor g)))
                   = (Z.of_nat (length cancer_pdf) + age p)%Z).
  { rewrite onset_age_no_wrap by assumption.
    rewrite searchsorted_all_below, cumsum_length; [reflexivity|].
    eapply Forall_impl; [apply cumsum_zeros; exact Hz|]. intros q Hq. cbv beta in *. lra. }
  split; [exact Honset|].
  rewrite Patient_run_history_eq, Honset.
  pose proof (searchsorted_le_index _ _ _ _ Hsorted Hi Hx) as Hd.
  rewrite lookup_insert_ne by done.
  destruct (Z.leb_spec (Z.of_nat (length cancer_pdf) + age p)
              (death_age cfg p (tape g (cursor g)))) as [Hle|Hgt].
  - rewrite death_age_no_wrap in Hle by assumption. lia.
  - by rewrite lookup_singleton_ne.
Qed.

Lemma Patient_run_zero_pdf_witness :
  let pdf := [0%Q; 0%Q] in
  let g := mkRng Demo.draws 0 in
  let p := Patient_init 0 0 in
  non_decreasing (condCDF Demo.cfg) /\
  (Np.int64_min <= age p)%Z /\
  (age p + Z.of_nat (length (condCDF Demo.cfg)) <= Np.int64_max)%Z /\
  (age p + Z.of_nat (length pdf) <= Np.int64_max)%Z /\
  Forall (fun q => (q == 0)%Q) pdf /\
  (0 < tape g (S (cursor g)))%Q /\
  condCDF Demo.cfg !! 1 = Some 1%Q /\
  (tape g (cursor g) <= 1)%Q /\
  1 < length pdf /\
  onset_age p pdf (tape g (S (cursor g))) = (Z.of_nat (length pdf) + age p)%Z /\
  history (Patient_run Demo.cfg p pdf g).1 !! "Cancer" = None.
Proof.
  intros pdf g p.
  assert (H1 : (Np.int64_min <= age p)%Z) by discriminate.
  assert (H2 : (age p + Z.of_nat (length (condCDF Demo.cfg)) <= Np.int64_max)%Z)
    by discriminate.
  assert (H3 : (age p + Z.of_nat (length pdf) <= Np.int64_max)%Z) by discriminate.
  assert (Hz : Forall (fun q => (q == 0)%Q) pdf) by (repeat constructor).
  assert (Hu : (0 < tape g (S (cursor g)))%Q) by reflexivity.
  assert (Hx : (tape g (cursor g) <= 1)%Q) by discriminate.
  assert (Hl : 1 < length pdf) by (simpl; lia).
  split; [exact demo_table_non_decreasing|].
  split; [exact H1|]. split; [exact H2|]. split; [exact H3|].
  split; [exact Hz|]. split; [exact Hu|]. split; [reflexivity|].
  split; [exact Hx|]. split; [exact Hl|].
  exact (Patient_run_zero_pdf Demo.cfg p pdf g 1 1 demo_table_non_decreasing
           H1 H2 H3 Hz Hu eq_refl Hx Hl).
Defined.
